(** * tiktok-downloader: the controller of [script.js], embedded and verified

    The page script validates a pasted URL against a fixed list of regular
    expressions, resolves it through the lookup API, normalises the answer
    into one result object, renders it, and dispatches downloads.  This file
    embeds those functions and proves the properties the specification states
    about them.

    Layout: JavaScript strings and the regular expressions of the script;
    the lookup response and its normalisation; the page state and the
    handlers; the download dispatcher; then the theorems. *)

From Stdlib Require Import List Bool NArith ZArith String Ascii DecimalString Lia.
Import ListNotations.

Set Implicit Arguments.
Local Open Scope N_scope.
Local Open Scope bool_scope.

(** ** JavaScript strings

    A JavaScript string is a sequence of UTF-16 code units.  A code unit is
    kept as an [N]; nothing below depends on the bound 2^16. *)

Definition code_unit := N.
Definition jsstring := list code_unit.

(** [js "..."] reads an ASCII literal of the script as a JavaScript string. *)
Definition js (s : string) : jsstring :=
  map N_of_ascii (list_ascii_of_string s).

Definition jsstring_eqb (a b : jsstring) : bool :=
  if list_eq_dec N.eq_dec a b then true else false.

(** ** Regular expressions

    The fragment of the RegExp syntax the script uses: literals, character
    classes, [.], concatenation, alternation, [*] and [+]. *)

Module Regex.

Inductive regex : Type :=
| Void                                  (* matches nothing; only arises in derivatives *)
| Eps                                   (* the empty pattern *)
| Sym (p : code_unit -> bool)           (* one code unit of a class *)
| Cat (r1 r2 : regex)
| Alt (r1 r2 : regex)
| Star (r : regex).

(** Character classes, as ECMAScript defines them without the [u] and [i]
    flags. *)
Definition in_range (lo hi c : code_unit) : bool :=
  (N.leb lo c && N.leb c hi)%bool.

Definition chr (a : ascii) : code_unit -> bool := N.eqb (N_of_ascii a).

(* \d *)
Definition digit (c : code_unit) : bool := in_range 48 57 c.

(* \w : [A-Za-z0-9_] *)
Definition word (c : code_unit) : bool :=
  (in_range 97 122 c || in_range 65 90 c || in_range 48 57 c || N.eqb c 95)%bool.

(* LineTerminator: LF, CR, U+2028, U+2029 *)
Definition line_terminator (c : code_unit) : bool :=
  (N.eqb c 10 || N.eqb c 13 || N.eqb c 8232 || N.eqb c 8233)%bool.

(* . *)
Definition dot (c : code_unit) : bool := negb (line_terminator c).

(* [ ... ] : the union of its members *)
Definition class (members : list (code_unit -> bool)) (c : code_unit) : bool :=
  existsb (fun p => p c) members.

(** Surface syntax. *)
Fixpoint lit_chars (l : list ascii) : regex :=
  match l with
  | [] => Eps
  | a :: l' => Cat (Sym (chr a)) (lit_chars l')
  end.

(* a run of literal characters *)
Definition lit (s : string) : regex := lit_chars (list_ascii_of_string s).

(* r+ *)
Definition plus (r : regex) : regex := Cat r (Star r).

(** *** What a pattern matches *)

Inductive Matches : regex -> jsstring -> Prop :=
| MEps : Matches Eps []
| MSym p c : p c = true -> Matches (Sym p) [c]
| MCat r1 r2 s1 s2 : Matches r1 s1 -> Matches r2 s2 -> Matches (Cat r1 r2) (s1 ++ s2)
| MAltL r1 r2 s : Matches r1 s -> Matches (Alt r1 r2) s
| MAltR r1 r2 s : Matches r2 s -> Matches (Alt r1 r2) s
| MStar0 r : Matches (Star r) []
| MStarS r s1 s2 : Matches r s1 -> Matches (Star r) s2 -> Matches (Star r) (s1 ++ s2).

(** *** [RegExp.prototype.test]

    Without the [g] and [y] flags, [pattern.test(s)] answers whether some
    substring of [s] matches the pattern.  The engine searches by
    backtracking; for this fragment (no back-references, no look-around) its
    answer is membership in the regular language, which is what the
    derivative computes. *)

Fixpoint nullable (r : regex) : bool :=
  match r with
  | Void => false
  | Eps => true
  | Sym _ => false
  | Cat r1 r2 => nullable r1 && nullable r2
  | Alt r1 r2 => nullable r1 || nullable r2
  | Star _ => true
  end.

Fixpoint deriv (c : code_unit) (r : regex) : regex :=
  match r with
  | Void => Void
  | Eps => Void
  | Sym p => if p c then Eps else Void
  | Cat r1 r2 =>
      if nullable r1
      then Alt (Cat (deriv c r1) r2) (deriv c r2)
      else Cat (deriv c r1) r2
  | Alt r1 r2 => Alt (deriv c r1) (deriv c r2)
  | Star r1 => Cat (deriv c r1) (Star r1)
  end.

(* does the pattern match the whole of [s]? *)
Fixpoint match_full (r : regex) (s : jsstring) : bool :=
  match s with
  | [] => nullable r
  | c :: s' => match_full (deriv c r) s'
  end.

(* does the pattern match at the start of [s]? *)
Fixpoint match_here (r : regex) (s : jsstring) : bool :=
  nullable r ||
  match s with
  | [] => false
  | c :: s' => match_here (deriv c r) s'
  end.

(* pattern.test(s): try every start position, left to right *)
Fixpoint test (r : regex) (s : jsstring) : bool :=
  match_here r s ||
  match s with
  | [] => false
  | _ :: s' => test r s'
  end.

End Regex.

Import Regex.

(** ** The URL validator (script.js, isValidTikTokUrl) *)

Definition handle_class : code_unit -> bool := class [word; chr "."; chr "-"].
Definition token_class : code_unit -> bool := class [word; chr "-"].

(* /tiktok\.com\/@[\w.-]+\/video\/\d+/ *)
Definition pattern_video_handle : regex :=
  Cat (lit "tiktok.com/@") (Cat (plus (Sym handle_class))
    (Cat (lit "/video/") (plus (Sym digit)))).

(* /tiktok\.com\/.*\/video\/\d+/ *)
Definition pattern_video_any : regex :=
  Cat (lit "tiktok.com/") (Cat (Star (Sym dot))
    (Cat (lit "/video/") (plus (Sym digit)))).

(* /tiktok\.com\/@[\w.-]+\/photo\/\d+/ *)
Definition pattern_photo_handle : regex :=
  Cat (lit "tiktok.com/@") (Cat (plus (Sym handle_class))
    (Cat (lit "/photo/") (plus (Sym digit)))).

(* /tiktok\.com\/.*\/photo\/\d+/ *)
Definition pattern_photo_any : regex :=
  Cat (lit "tiktok.com/") (Cat (Star (Sym dot))
    (Cat (lit "/photo/") (plus (Sym digit)))).

(* /vm\.tiktok\.com\/[\w-]+/ *)
Definition pattern_vm : regex :=
  Cat (lit "vm.tiktok.com/") (plus (Sym token_class)).

(* /vt\.tiktok\.com\/[\w-]+/ *)
Definition pattern_vt : regex :=
  Cat (lit "vt.tiktok.com/") (plus (Sym token_class)).

(* /tiktok\.com\/t\/[\w-]+/ *)
Definition pattern_t : regex :=
  Cat (lit "tiktok.com/t/") (plus (Sym token_class)).

Definition patterns : list regex :=
  [ pattern_video_handle; pattern_video_any;
    pattern_photo_handle; pattern_photo_any;
    pattern_vm; pattern_vt; pattern_t ].

(* patterns.some(pattern => pattern.test(url)) *)
Definition isValidTikTokUrl (url : jsstring) : bool :=
  existsb (fun pattern => test pattern url) patterns.

(** ** The lookup response

    The JSON object the lookup API answers with, in the shape the script
    reads it: [result.code], [result.msg] and, under [result.data], the
    fields [title], [author.unique_id], [author.nickname], [cover],
    [origin_cover], [images], [hdplay], [play], [wmplay], [duration].
    Every property may be missing or [null]; strings may be empty.
    Properties carry the types the API documents for them: text, an array
    of URLs for [images], integers for [code] and [duration]. *)

(* what reading a property gives *)
Inductive field (A : Type) : Type :=
| Undefined            (* the property is missing *)
| Null                 (* it is null *)
| Value (a : A).

Arguments Undefined {A}.
Arguments Null {A}.
Arguments Value {A} a.

Module Api.

Record Author : Type := {
  unique_id : field jsstring;
  nickname : field jsstring
}.

Record Data : Type := {
  title : field jsstring;
  author : field Author;
  cover : field jsstring;
  origin_cover : field jsstring;
  images : field (list jsstring);
  hdplay : field jsstring;
  play : field jsstring;
  wmplay : field jsstring;
  duration : field Z
}.

Record Response : Type := {
  code : field Z;
  msg : field jsstring;
  data : field Data
}.

End Api.

(** *** Truthiness and the short-circuit operators *)

(* ToBoolean of a string-valued property: undefined, null and "" are falsy *)
Definition truthy (v : field jsstring) : bool :=
  match v with
  | Value (_ :: _) => true
  | _ => false
  end.

(* ToBoolean of a boolean-valued property *)
Definition truthy_bool (v : field bool) : bool :=
  match v with
  | Value true => true
  | _ => false
  end.

(* a || b *)
Definition or_else (a b : field jsstring) : field jsstring :=
  if truthy a then a else b.

(* a || 'literal', with a non-empty literal *)
Definition or_literal (a : field jsstring) (literal : jsstring) : jsstring :=
  match a with
  | Value (c :: s) => c :: s
  | _ => literal
  end.

(* s || 'literal' on a string *)
Definition or_text (s literal : jsstring) : jsstring :=
  match s with
  | [] => literal
  | _ :: _ => s
  end.

(* object?.property *)
Definition opt_chain {A B : Type} (o : field A) (property : A -> field B) : field B :=
  match o with
  | Value a => property a
  | _ => Undefined
  end.

(** *** The normalised result (the object fetchTikTokData returns) *)

Record MediaResult : Type := {
  title : jsstring;
  author : jsstring;
  thumbnail : field jsstring;
  videoUrl : field jsstring;
  images : field (list jsstring);
  isPhoto : field bool;
  duration : field Z
}.

(* result.data.images && result.data.images.length > 0
   (an array, even an empty one, is truthy) *)
Definition compute_isPhoto (imgs : field (list jsstring)) : field bool :=
  match imgs with
  | Undefined => Undefined
  | Null => Null
  | Value l => Value (Nat.ltb 0 (List.length l))
  end.

(* script.js lines 170-180 *)
Definition normalize (d : Api.Data) : MediaResult :=
  let isPhoto := compute_isPhoto (Api.images d) in
  {| title := or_literal (Api.title d) (js "TikTok Content");
     author :=
       or_literal
         (or_else (opt_chain (Api.author d) Api.unique_id)
                  (opt_chain (Api.author d) Api.nickname))
         (js "@tiktok");
     thumbnail := or_else (Api.cover d) (Api.origin_cover d);
     videoUrl :=
       if truthy_bool isPhoto then Null
       else or_else (or_else (Api.hdplay d) (Api.play d)) (Api.wmplay d);
     images := if truthy_bool isPhoto then Api.images d else Null;
     isPhoto := isPhoto;
     duration := Api.duration d |}.

(** ** Errors, the console, and the lookup client *)

Record js_error : Type := {
  name : jsstring;
  message : jsstring
}.

(* new Error(message) *)
Definition new_Error (m : jsstring) : js_error :=
  {| name := js "Error"; message := m |}.

(* The TypeError the engine raises when a property of undefined or null is
   read.  The wording is the engine's (V8's is shown); it only ever reaches
   the console. *)
Definition TypeError_reading (base property : string) : js_error :=
  {| name := js "TypeError";
     message := js ("Cannot read properties of " ++ base ++
                    " (reading '" ++ property ++ "')")%string |}.

Inductive completion (A : Type) : Type :=
| Return (a : A)
| Throw (e : js_error).

Arguments Return {A} a.
Arguments Throw {A} e.

Definition bind {A B : Type} (c : completion A) (k : A -> completion B) : completion B :=
  match c with
  | Return a => k a
  | Throw e => Throw e
  end.

Notation "x <- c ;; k" := (bind c (fun x => k))
  (at level 61, c at next level, right associativity).

(* what the network hands back to one fetch *)
Inductive body_outcome : Type :=
| JsonBody (result : Api.Response)     (* response.json() resolves *)
| BodyRejected (e : js_error).         (* it rejects: malformed JSON, or an abort *)

Inductive fetch_outcome : Type :=
| FetchRejected (e : js_error)                  (* fetch() rejects: network error, or an abort *)
| FetchResponse (ok : bool) (b : body_outcome). (* fetch() resolves; ok = status is 2xx *)

Inductive log_entry : Type :=
| ConsoleError (label : jsstring) (e : js_error).

Definition generic_lookup_message : jsstring :=
  js "Unable to fetch content. Please check the URL and try again.".

(* result.code !== 0 *)
Definition code_is_not_zero (c : field Z) : bool :=
  match c with
  | Value z => negb (Z.eqb z 0)
  | _ => true
  end.

(* reading result.data.images: throws when result.data is undefined or null *)
Definition read_data (result : Api.Response) : completion Api.Data :=
  match Api.data result with
  | Value d => Return d
  | Undefined => Throw (TypeError_reading "undefined" "images")
  | Null => Throw (TypeError_reading "null" "images")
  end.

(* the try block of fetchTikTokData, from the point where fetch settles *)
Definition fetchTikTokData_try (o : fetch_outcome) : completion MediaResult :=
  match o with
  | FetchRejected e => Throw e
  | FetchResponse ok b =>
      if negb ok then Throw (new_Error (js "Failed to fetch content data"))
      else
        result <- match b with
                  | JsonBody r => Return r
                  | BodyRejected e => Throw e
                  end ;;
        if code_is_not_zero (Api.code result)
        then Throw (new_Error (or_literal (Api.msg result) (js "Failed to fetch content")))
        else
          d <- read_data result ;;
          Return (normalize d)
  end.

(* fetchTikTokData: the try block, and the catch that logs and rethrows *)
Definition fetchTikTokData (o : fetch_outcome) : list log_entry * completion MediaResult :=
  match fetchTikTokData_try o with
  | Return videoData => ([], Return videoData)
  | Throw error =>
      ([ConsoleError (js "API Error:") error], Throw (new_Error generic_lookup_message))
  end.

(** ** The page

    The module-level variables of the script and the part of the document
    its functions read and write. *)

Inductive timer : Type :=
| HideToast             (* showToast's 3000 ms timer; the script's toastTimer *)
| MarkContentLoaded.    (* displayResult's 100 ms timer *)

Record Toast : Type := {
  toastMessage : jsstring;      (* elements.toastMessage.textContent *)
  toast_is_error : bool;        (* elements.toast has class 'error' *)
  toast_active : bool           (* elements.toast has class 'active' *)
}.

Record ResultView : Type := {
  result_active : bool;         (* elements.result has class 'active' *)
  videoTitle : jsstring;
  videoAuthor : jsstring;
  contentType : jsstring;
  videoOptions_active : bool;
  photoGallery_active : bool;
  downloadVideo_href : jsstring;
  photoGrid : list jsstring     (* the src of each photo item, in order *)
}.

Record Page : Type := {
  input_value : jsstring;                (* elements.videoUrl.value *)
  input_error : bool;                    (* elements.videoUrl has class 'error' *)
  loading : bool;                        (* downloadBtn.disabled and its class 'loading' *)
  view : ResultView;
  toast : Toast;
  timers : list timer;                   (* timers set and not yet fired *)
  content_loaded : bool;                 (* document.body has class 'content-loaded' *)
  console : list log_entry;              (* oldest first *)
  currentVideoData : option MediaResult; (* None is null *)
  abortController : option nat;          (* the controller in the slot, by identity *)
  aborted : list nat;                    (* controllers whose abort() has run *)
  controllers : nat;                     (* how many AbortControllers were created *)
  in_flight : list (nat * jsstring)      (* lookups not yet settled: signal, url *)
}.

Definition with_view (f : ResultView -> ResultView) (st : Page) : Page :=
  {| input_value := input_value st; input_error := input_error st;
     loading := loading st; view := f (view st); toast := toast st;
     timers := timers st; content_loaded := content_loaded st;
     console := console st; currentVideoData := currentVideoData st;
     abortController := abortController st; aborted := aborted st;
     controllers := controllers st; in_flight := in_flight st |}.

Definition set_input_value (v : jsstring) (st : Page) : Page :=
  {| input_value := v; input_error := input_error st;
     loading := loading st; view := view st; toast := toast st;
     timers := timers st; content_loaded := content_loaded st;
     console := console st; currentVideoData := currentVideoData st;
     abortController := abortController st; aborted := aborted st;
     controllers := controllers st; in_flight := in_flight st |}.

Definition set_input_error (b : bool) (st : Page) : Page :=
  {| input_value := input_value st; input_error := b;
     loading := loading st; view := view st; toast := toast st;
     timers := timers st; content_loaded := content_loaded st;
     console := console st; currentVideoData := currentVideoData st;
     abortController := abortController st; aborted := aborted st;
     controllers := controllers st; in_flight := in_flight st |}.

Definition set_toast (t : Toast) (pending : list timer) (st : Page) : Page :=
  {| input_value := input_value st; input_error := input_error st;
     loading := loading st; view := view st; toast := t;
     timers := pending; content_loaded := content_loaded st;
     console := console st; currentVideoData := currentVideoData st;
     abortController := abortController st; aborted := aborted st;
     controllers := controllers st; in_flight := in_flight st |}.

Definition set_content_loaded (pending : list timer) (st : Page) : Page :=
  {| input_value := input_value st; input_error := input_error st;
     loading := loading st; view := view st; toast := toast st;
     timers := pending; content_loaded := true;
     console := console st; currentVideoData := currentVideoData st;
     abortController := abortController st; aborted := aborted st;
     controllers := controllers st; in_flight := in_flight st |}.

Definition log (entries : list log_entry) (st : Page) : Page :=
  {| input_value := input_value st; input_error := input_error st;
     loading := loading st; view := view st; toast := toast st;
     timers := timers st; content_loaded := content_loaded st;
     console := console st ++ entries; currentVideoData := currentVideoData st;
     abortController := abortController st; aborted := aborted st;
     controllers := controllers st; in_flight := in_flight st |}.

Definition set_currentVideoData (d : option MediaResult) (st : Page) : Page :=
  {| input_value := input_value st; input_error := input_error st;
     loading := loading st; view := view st; toast := toast st;
     timers := timers st; content_loaded := content_loaded st;
     console := console st; currentVideoData := d;
     abortController := abortController st; aborted := aborted st;
     controllers := controllers st; in_flight := in_flight st |}.

(* the three controller fields and the list of pending lookups *)
Definition set_requests (slot : option nat) (gone : list nat) (made : nat)
    (pending : list (nat * jsstring)) (st : Page) : Page :=
  {| input_value := input_value st; input_error := input_error st;
     loading := loading st; view := view st; toast := toast st;
     timers := timers st; content_loaded := content_loaded st;
     console := console st; currentVideoData := currentVideoData st;
     abortController := slot; aborted := gone;
     controllers := made; in_flight := pending |}.

(* setLoading *)
Definition setLoading (isLoading : bool) (st : Page) : Page :=
  {| input_value := input_value st; input_error := input_error st;
     loading := isLoading; view := view st; toast := toast st;
     timers := timers st; content_loaded := content_loaded st;
     console := console st; currentVideoData := currentVideoData st;
     abortController := abortController st; aborted := aborted st;
     controllers := controllers st; in_flight := in_flight st |}.

Definition is_HideToast (t : timer) : bool :=
  match t with HideToast => true | MarkContentLoaded => false end.

(* showToast: clears the pending hide timer, shows the message, arms a new one *)
Definition showToast (m : jsstring) (isError : bool) (st : Page) : Page :=
  set_toast {| toastMessage := m; toast_is_error := isError; toast_active := true |}
            (filter (fun t => negb (is_HideToast t)) (timers st) ++ [HideToast])
            st.

(* hideError *)
Definition hideError (st : Page) : Page := set_input_error false st.

(* showError *)
Definition showError (m : jsstring) (st : Page) : Page :=
  showToast m true (set_input_error true st).

(* hideResult *)
Definition hideResult (st : Page) : Page :=
  with_view (fun v =>
    {| result_active := false; videoTitle := videoTitle v;
       videoAuthor := videoAuthor v; contentType := contentType v;
       videoOptions_active := videoOptions_active v;
       photoGallery_active := photoGallery_active v;
       downloadVideo_href := downloadVideo_href v; photoGrid := photoGrid v |}) st.

(* handleInputChange *)
Definition handleInputChange (st : Page) : Page :=
  if input_error st then hideError st else st.

(** ** Rendering (script.js, displayResult and displayPhotoGallery) *)

(* the decimal digits of a length, as template literals print it *)
Definition decimal (n : nat) : jsstring :=
  js (NilEmpty.string_of_uint (Nat.to_uint n)).

(* author.startsWith('@') *)
Definition startsWith_at (s : jsstring) : bool :=
  match s with
  | c :: _ => N.eqb c 64
  | [] => false
  end.

(* author.startsWith('@') ? author : `@${author}` *)
Definition author_label (author : jsstring) : jsstring :=
  if startsWith_at author then author else 64 :: author.

(* `PHOTO · ${n} IMAGES`; the middle dot is U+00B7 *)
Definition photo_label (n : nat) : jsstring :=
  js "PHOTO " ++ [183] ++ js " " ++ decimal n ++ js " IMAGES".

Definition render_head (data : MediaResult) (v : ResultView) : ResultView :=
  {| result_active := result_active v;
     videoTitle := or_text (title data) (js "TikTok Content");
     videoAuthor := author_label (or_text (author data) (js "tiktok"));
     contentType := contentType v;
     videoOptions_active := videoOptions_active v;
     photoGallery_active := photoGallery_active v;
     downloadVideo_href := downloadVideo_href v; photoGrid := photoGrid v |}.

(* the photo branch, with displayPhotoGallery filling the grid *)
Definition render_photo (imgs : list jsstring) (v : ResultView) : ResultView :=
  {| result_active := true;
     videoTitle := videoTitle v; videoAuthor := videoAuthor v;
     contentType := photo_label (List.length imgs);
     videoOptions_active := false;
     photoGallery_active := true;
     downloadVideo_href := downloadVideo_href v; photoGrid := imgs |}.

(* the video branch *)
Definition render_video (url : field jsstring) (v : ResultView) : ResultView :=
  {| result_active := true;
     videoTitle := videoTitle v; videoAuthor := videoAuthor v;
     contentType := js "VIDEO";
     videoOptions_active := truthy url;
     photoGallery_active := false;
     downloadVideo_href :=
       match url with
       | Value (c :: s) => c :: s
       | _ => downloadVideo_href v
       end;
     photoGrid := photoGrid v |}.

Definition arm_content_loaded (st : Page) : Page :=
  set_toast (toast st) (timers st ++ [MarkContentLoaded]) st.

(* displayResult.  It throws only when data.isPhoto is truthy while
   data.images has no length to read; the assignments made before that
   point stay. *)
Definition displayResult (data : MediaResult) (st : Page) : Page * option js_error :=
  let st1 := with_view (render_head data) (set_currentVideoData (Some data) st) in
  if truthy_bool (isPhoto data) then
    match images data with
    | Value imgs => (arm_content_loaded (with_view (render_photo imgs) st1), None)
    | Undefined => (st1, Some (TypeError_reading "undefined" "length"))
    | Null => (st1, Some (TypeError_reading "null" "length"))
    end
  else (arm_content_loaded (with_view (render_video (videoUrl data)) st1), None).

(** ** The controller (script.js, handleDownload)

    handleDownload is an async function with one suspension point, the await
    of fetchTikTokData.  [handleDownload_start] is the part that runs when
    the handler is called, up to and including the call of fetch;
    [handleDownload_settle] is the part that runs when the lookup settles.
    fetchTikTokData reads [abortController.signal] before its first await,
    so the signal a lookup carries is the controller created by its own
    handleDownload call. *)

(* WhiteSpace and LineTerminator code units, which String.prototype.trim strips *)
Definition whitespace (c : code_unit) : bool :=
  in_range 9 13 c || N.eqb c 32 || N.eqb c 160 || N.eqb c 5760 ||
  in_range 8192 8202 c || N.eqb c 8232 || N.eqb c 8233 || N.eqb c 8239 ||
  N.eqb c 8287 || N.eqb c 12288 || N.eqb c 65279.

Fixpoint trimStart (s : jsstring) : jsstring :=
  match s with
  | c :: s' => if whitespace c then trimStart s' else s
  | [] => []
  end.

Definition trim (s : jsstring) : jsstring :=
  rev (trimStart (rev (trimStart s))).

(* abortController.abort(), when the slot holds a controller *)
Definition abort_current (st : Page) : list nat :=
  match abortController st with
  | Some c => c :: aborted st
  | None => aborted st
  end.

Definition handleDownload_start (st : Page) : Page :=
  let url := trim (input_value st) in
  match url with
  | [] => showError (js "Please enter a TikTok URL") st
  | _ :: _ =>
      if negb (isValidTikTokUrl url)
      then showError (js "Please enter a valid TikTok URL") st
      else
        let fresh := controllers st in
        let st1 := set_requests (Some fresh) (abort_current st) (S fresh)
                                (in_flight st ++ [(fresh, url)]) st in
        setLoading true (hideResult (hideError st1))
  end.

(* error.name === 'AbortError' *)
Definition is_AbortError (e : js_error) : bool :=
  jsstring_eqb (name e) (js "AbortError").

(* the catch block *)
Definition handleDownload_catch (error : js_error) (st : Page) : Page :=
  if is_AbortError error then st
  else
    log [ConsoleError (js "Download error:") error]
        (showError (or_text (message error) (js "An error occurred. Please try again.")) st).

(* the finally block *)
Definition handleDownload_finally (st : Page) : Page :=
  set_requests None (aborted st) (controllers st) (in_flight st) (setLoading false st).

Definition handleDownload_settle (o : fetch_outcome) (st : Page) : Page :=
  let (entries, c) := fetchTikTokData o in
  let st1 := log entries st in
  handleDownload_finally
    match c with
    | Return videoData =>
        match displayResult videoData st1 with
        | (st2, None) => st2
        | (st2, Some error) => handleDownload_catch error st2
        end
    | Throw error => handleDownload_catch error st1
    end.

(** *** The event loop

    One step is one task: the user edits the input, triggers a lookup (click
    or Enter), a pending lookup settles, or a timer fires.  A lookup whose
    controller was aborted settles the only way the platform allows: fetch,
    or the reading of the body, rejects with an AbortError. *)

Inductive event : Type :=
| Typed (text : jsstring)
| Submit
| Settles (c : nat) (o : fetch_outcome)
| Fires (t : timer).

Definition abort_rejection (o : fetch_outcome) : Prop :=
  match o with
  | FetchRejected e => is_AbortError e = true
  | FetchResponse true (BodyRejected e) => is_AbortError e = true
  | _ => False
  end.

Definition forget (c : nat) (st : Page) : Page :=
  set_requests (abortController st) (aborted st) (controllers st)
    (filter (fun r => negb (Nat.eqb (fst r) c)) (in_flight st)) st.

Fixpoint remove_first (t : timer) (l : list timer) : list timer :=
  match l with
  | [] => []
  | t' :: l' =>
      if Bool.eqb (is_HideToast t) (is_HideToast t') then l' else t' :: remove_first t l'
  end.

Definition fire (t : timer) (st : Page) : Page :=
  match t with
  | HideToast =>
      set_toast {| toastMessage := toastMessage (toast st);
                   toast_is_error := toast_is_error (toast st);
                   toast_active := false |}
                (remove_first HideToast (timers st)) st
  | MarkContentLoaded =>
      set_content_loaded (remove_first MarkContentLoaded (timers st)) st
  end.

Inductive step : Page -> event -> Page -> Prop :=
| step_typed st text :
    step st (Typed text) (handleInputChange (set_input_value text st))
| step_submit st :
    step st Submit (handleDownload_start st)
| step_settles st c url o :
    In (c, url) (in_flight st) ->
    (In c (aborted st) -> abort_rejection o) ->
    step st (Settles c o) (handleDownload_settle o (forget c st))
| step_fires st t :
    In t (timers st) ->
    step st (Fires t) (fire t st).

(* a run of the page: the states it passes through, event by event *)
Inductive run : Page -> list event -> Page -> Prop :=
| run_nil st : run st [] st
| run_cons st e st1 es st2 : step st e st1 -> run st1 es st2 -> run st (e :: es) st2.

(* the page as loaded; the text the markup starts with is not part of the
   script and is taken empty *)
Definition empty_view : ResultView :=
  {| result_active := false; videoTitle := []; videoAuthor := [];
     contentType := []; videoOptions_active := false;
     photoGallery_active := false; downloadVideo_href := []; photoGrid := [] |}.

Definition initial_page : Page :=
  {| input_value := []; input_error := false; loading := false;
     view := empty_view;
     toast := {| toastMessage := []; toast_is_error := false; toast_active := false |};
     timers := []; content_loaded := false; console := [];
     currentVideoData := None; abortController := None; aborted := [];
     controllers := 0; in_flight := [] |}.

(** ** The download dispatcher (script.js, downloadMedia)

    downloadMedia is async as well: [downloadMedia_start] runs up to the
    call of fetch, [downloadMedia_settle] from the point where the media
    fetch settles.  What it does outside the page (requests, clicks on a
    synthetic anchor, new browsing contexts) is returned as a list of
    effects, in order. *)

Record Navigator : Type := {
  userAgent : jsstring;
  platform : jsstring;
  maxTouchPoints : N
}.

(* /iPad|iPhone|iPod/ *)
Definition pattern_ios : regex :=
  Alt (lit "iPad") (Alt (lit "iPhone") (lit "iPod")).

Definition isIOS (navigator : Navigator) : bool :=
  test pattern_ios (userAgent navigator) ||
  (jsstring_eqb (platform navigator) (js "MacIntel") &&
   N.ltb 1 (maxTouchPoints navigator)).

Inductive effect : Type :=
| Fetch (url : jsstring)                  (* fetch(url), the first step of the blob path *)
| AnchorClick (href download : jsstring)  (* a.click() on a synthetic anchor *)
              (target : option jsstring) (in_document : bool)
| ScheduleCleanup (blobUrl : jsstring)    (* the 100 ms timer that removes the anchor
                                             and revokes the object URL *)
| WindowOpen (url target : jsstring).     (* window.open(url, target) *)

Inductive blob_outcome : Type :=
| BlobReady (blobUrl : jsstring)   (* response.blob() resolves; blobUrl is what
                                      URL.createObjectURL returns for it *)
| BlobRejected (e : js_error).

Inductive media_outcome : Type :=
| MediaRejected (e : js_error)
| MediaResponse (ok : bool) (b : blob_outcome).

Definition downloadMedia_start (url : jsstring) (st : Page) : Page * list effect :=
  (showToast (js "Starting download...") false st, [Fetch url]).

(* the try block, up to the object URL *)
Definition downloadMedia_try (o : media_outcome) : completion jsstring :=
  match o with
  | MediaRejected e => Throw e
  | MediaResponse ok b =>
      if negb ok then Throw (new_Error (js "Download failed"))
      else match b with
           | BlobReady blobUrl => Return blobUrl
           | BlobRejected e => Throw e
           end
  end.

Definition downloadMedia_settle (ios : bool) (url filename : jsstring)
    (o : media_outcome) (st : Page) : Page * list effect :=
  match downloadMedia_try o with
  | Return blobUrl =>
      (showToast (js "Download started!") false st,
       [AnchorClick blobUrl filename None true; ScheduleCleanup blobUrl])
  | Throw error =>
      let st1 := log [ConsoleError (js "Download error:") error] st in
      if ios
      then (showToast (js "iOS: Please long press to save") true st1,
            [WindowOpen url (js "_blank")])
      else (st1, [AnchorClick url filename (Some (js "_blank")) false])
  end.

(* one whole invocation, with nothing else running in between *)
Definition downloadMedia (navigator : Navigator) (url filename : jsstring)
    (o : media_outcome) (st : Page) : Page * list effect :=
  let ios := isIOS navigator in
  let (st1, requested) := downloadMedia_start url st in
  let (st2, done) := downloadMedia_settle ios url filename o st1 in
  (st2, requested ++ done).

Definition is_Fetch (e : effect) : bool :=
  match e with Fetch _ => true | _ => false end.

Definition is_WindowOpen (e : effect) : bool :=
  match e with WindowOpen _ _ => true | _ => false end.


(** ** Vocabulary of the specification *)

(* some substring of [s] has the shape of [r] *)
Definition contains_shape (r : regex) (s : jsstring) : Prop :=
  exists before m after, s = before ++ m ++ after /\ Matches r m.






(* how many '@' the text starts with *)
Fixpoint leading_ats (s : jsstring) : nat :=
  match s with
  | c :: s' => if N.eqb c 64 then S (leading_ats s') else 0%nat
  | [] => 0%nat
  end.

(* a lookup that succeeds: 2xx, JSON, code 0, data present *)
Definition successful (d : Api.Data) (msg : field jsstring) : fetch_outcome :=
  FetchResponse true
    (JsonBody {| Api.code := Value 0%Z; Api.msg := msg; Api.data := Value d |}).

(* the first non-empty candidate, in the order given *)
Fixpoint first_non_empty (candidates : list (field jsstring)) : option jsstring :=
  match candidates with
  | [] => None
  | Value (c :: s) :: _ => Some (c :: s)
  | _ :: rest => first_non_empty rest
  end.


Definition with_author (v : field Api.Author) (d : Api.Data) : Api.Data :=
  {| Api.title := Api.title d; Api.author := v; Api.cover := Api.cover d;
     Api.origin_cover := Api.origin_cover d; Api.images := Api.images d;
     Api.hdplay := Api.hdplay d; Api.play := Api.play d;
     Api.wmplay := Api.wmplay d; Api.duration := Api.duration d |}.

Definition with_hdplay (v : field jsstring) (d : Api.Data) : Api.Data :=
  {| Api.title := Api.title d; Api.author := Api.author d; Api.cover := Api.cover d;
     Api.origin_cover := Api.origin_cover d; Api.images := Api.images d;
     Api.hdplay := v; Api.play := Api.play d;
     Api.wmplay := Api.wmplay d; Api.duration := Api.duration d |}.

Definition with_play (v : field jsstring) (d : Api.Data) : Api.Data :=
  {| Api.title := Api.title d; Api.author := Api.author d; Api.cover := Api.cover d;
     Api.origin_cover := Api.origin_cover d; Api.images := Api.images d;
     Api.hdplay := Api.hdplay d; Api.play := v;
     Api.wmplay := Api.wmplay d; Api.duration := Api.duration d |}.


(* the author text on the page once a successful lookup has settled *)
Definition displayed_author (d : Api.Data) (m : field jsstring) (st : Page) : jsstring :=
  videoAuthor (view (handleDownload_settle (successful d m) st)).

(** ** Sample inputs *)

(* data with every property missing *)
Definition bare_data : Api.Data :=
  {| Api.title := Undefined; Api.author := Undefined; Api.cover := Undefined;
     Api.origin_cover := Undefined; Api.images := Undefined;
     Api.hdplay := Undefined; Api.play := Undefined;
     Api.wmplay := Undefined; Api.duration := Undefined |}.

Definition author_named (uid nick : field jsstring) : field Api.Author :=
  Value {| Api.unique_id := uid; Api.nickname := nick |}.

(* hdplay = "A", play = "B", no images *)
Definition video_data : Api.Data :=
  with_hdplay (Value (js "A")) (with_play (Value (js "B")) bare_data).


(* no unique_id, and a nickname that itself starts with two '@' *)
Definition double_at_data : Api.Data :=
  with_author (author_named Undefined (Value (js "@@x"))) bare_data.

Definition abort_error : js_error :=
  {| name := js "AbortError"; message := js "signal is aborted without reason" |}.


Definition rate_limited : fetch_outcome :=
  FetchResponse true
    (JsonBody {| Api.code := Value 1%Z; Api.msg := Value (js "rate limited");
                 Api.data := Undefined |}).

Definition url_A : jsstring := js "https://vm.tiktok.com/ZMabc".
Definition url_B : jsstring := js "https://vt.tiktok.com/ZSxyz".



(** ** The other handlers of the page *)

(* handleKeyPress: Enter in the input starts a lookup *)
Definition handleKeyPress (key : jsstring) (st : Page) : Page :=
  if jsstring_eqb key (js "Enter") then handleDownload_start st else st.

(* the decimal digits of a number such as Date.now() *)
Definition decimal_N (n : N) : jsstring :=
  js (NilEmpty.string_of_uint (N.to_uint n)).

(* `tiktok_${Date.now()}.mp4` *)
Definition download_filename (now : N) : jsstring :=
  js "tiktok_" ++ decimal_N now ++ js ".mp4".

(* currentVideoData?.videoUrl, when it is truthy *)
Definition current_videoUrl (st : Page) : option jsstring :=
  match currentVideoData st with
  | Some data =>
      match videoUrl data with
      | Value (c :: s) => Some (c :: s)
      | _ => None
      end
  | None => None
  end.

(* handleVideoDownload, up to the first await of downloadMedia.  The third
   component is Some (url, filename) when the handler called
   e.preventDefault() and started a download with these arguments, and None
   when it left the click to the browser. *)
Definition handleVideoDownload (now : N) (st : Page)
    : Page * list effect * option (jsstring * jsstring) :=
  match current_videoUrl st with
  | Some url =>
      let (st1, requested) := downloadMedia_start url st in
      (st1, requested, Some (url, download_filename now))
  | None => (st, [], None)
  end.

(** *** Paste with debounce (script.js, handlePaste)

    Each paste clears the timer of the previous paste and sets a new one of
    500 ms.  setTimeout returns positive integers, so the identifier kept
    in debounceTimer is always truthy. *)

Record Debounce : Type := {
  debounceTimer : option nat;      (* None is null *)
  paste_timers : list nat;         (* paste callbacks set and not yet run *)
  timers_set : nat                 (* how many paste timers were set; a timer is
                                      identified by its rank among them *)
}.

Definition no_paste : Debounce :=
  {| debounceTimer := None; paste_timers := []; timers_set := 0 |}.

Definition clearTimeout (id : nat) (pending : list nat) : list nat :=
  filter (fun t => negb (Nat.eqb t id)) pending.

(* handlePaste, the part that runs in the paste event *)
Definition handlePaste (db : Debounce) : Debounce :=
  let pending :=
    match debounceTimer db with
    | Some id => clearTimeout id (paste_timers db)
    | None => paste_timers db
    end in
  let id := S (timers_set db) in
  {| debounceTimer := Some id; paste_timers := pending ++ [id]; timers_set := id |}.

(* a paste timer runs; the variable debounceTimer keeps its identifier *)
Definition paste_timer_runs (id : nat) (db : Debounce) : Debounce :=
  {| debounceTimer := debounceTimer db;
     paste_timers := clearTimeout id (paste_timers db);
     timers_set := timers_set db |}.

(* the callback of the timer; [pastedText] is what
   e.clipboardData.getData('text') gives at that moment *)
Definition handlePaste_callback (pastedText : jsstring) (st : Page) : Page :=
  match pastedText with
  | [] => st
  | _ :: _ =>
      if isValidTikTokUrl (trim pastedText) then handleDownload_start st else st
  end.

(** *** The preview modal (openPreview, openPhotoPreview, closePreview)

    previewVideo.pause() is left out: the model does not follow playback. *)

Record ImagePreview : Type := {
  image_src : jsstring;
  image_display : jsstring          (* imgPreview.style.display *)
}.

Record Preview : Type := {
  modal_active : bool;              (* previewModal has class 'active' *)
  video_display : jsstring;         (* previewVideo.style.display *)
  source_src : jsstring;            (* previewSource.src *)
  video_loaded : option jsstring;   (* the source at the last previewVideo.load() *)
  image_preview : option ImagePreview;  (* None: #imagePreview does not exist yet *)
  body_overflow : jsstring;         (* document.body.style.overflow *)
  modal_focused : bool              (* previewModal.focus() has been called *)
}.

Definition closed_preview : Preview :=
  {| modal_active := false; video_display := []; source_src := [];
     video_loaded := None; image_preview := None; body_overflow := [];
     modal_focused := false |}.

Definition openPhotoPreview (imageUrl : jsstring) (pv : Preview) : Preview :=
  {| modal_active := true;
     video_display := js "none";
     source_src := source_src pv;
     video_loaded := video_loaded pv;
     image_preview := Some {| image_src := imageUrl; image_display := js "block" |};
     body_overflow := js "hidden";
     modal_focused := true |}.

Definition openPreview (url : jsstring) (pv : Preview) : Preview :=
  {| modal_active := true;
     video_display := js "block";
     source_src := url;
     video_loaded := Some url;
     image_preview :=
       match image_preview pv with
       | Some img => Some {| image_src := image_src img; image_display := js "none" |}
       | None => None
       end;
     body_overflow := js "hidden";
     modal_focused := modal_focused pv |}.

Definition closePreview (pv : Preview) : Preview :=
  {| modal_active := false;
     video_display := video_display pv;
     source_src := [];
     video_loaded := video_loaded pv;
     image_preview := image_preview pv;
     body_overflow := js "auto";
     modal_focused := modal_focused pv |}.

(* handlePreviewClick *)
Definition handlePreviewClick (st : Page) (pv : Preview) : Preview :=
  match current_videoUrl st with
  | Some url => openPreview url pv
  | None => pv
  end.

(* what a click inside the modal landed on *)
Record ClickTarget : Type := {
  is_previewModal : bool;          (* e.target === elements.previewModal *)
  has_modal_backdrop : bool        (* e.target.classList.contains('modal-backdrop') *)
}.

(* handleModalClick *)
Definition handleModalClick (target : ClickTarget) (pv : Preview) : Preview :=
  if is_previewModal target || has_modal_backdrop target then closePreview pv else pv.

(* handleEscapeKey *)
Definition handleEscapeKey (key : jsstring) (pv : Preview) : Preview :=
  if jsstring_eqb key (js "Escape") && modal_active pv then closePreview pv else pv.

Inductive preview_event : Type :=
| PreviewClick (st : Page)             (* the preview button, with the page as it is *)
| PhotoClick (imageUrl : jsstring)     (* a photo item without the class 'error' *)
| CloseClick                           (* the modal's close button *)
| ModalClick (target : ClickTarget)
| KeyDown (key : jsstring).

Definition preview_step (e : preview_event) (pv : Preview) : Preview :=
  match e with
  | PreviewClick st => handlePreviewClick st pv
  | PhotoClick imageUrl => openPhotoPreview imageUrl pv
  | CloseClick => closePreview pv
  | ModalClick target => handleModalClick target pv
  | KeyDown key => handleEscapeKey key pv
  end.

(* the events applied in order, oldest first *)
Definition preview_run (es : list preview_event) (pv : Preview) : Preview :=
  fold_left (fun acc e => preview_step e acc) es pv.

(** *** The photo gallery (displayPhotoGallery) *)

Record PhotoItem : Type := {
  item_src : jsstring;
  item_alt : jsstring;
  item_loaded : bool;              (* img.onload ran: class 'loaded' *)
  item_error : bool                (* img.onerror ran: class 'error' *)
}.

(* images.forEach, with the running index *)
Fixpoint gallery_from (index : nat) (imgs : list jsstring) : list PhotoItem :=
  match imgs with
  | [] => []
  | imageUrl :: rest =>
      {| item_src := imageUrl;
         item_alt := js "Photo " ++ decimal (index + 1);
         item_loaded := false; item_error := false |}
      :: gallery_from (S index) rest
  end.

(* the grid is emptied first, so the old items do not matter *)
Definition displayPhotoGallery (imgs : list jsstring) (old : list PhotoItem)
    : list PhotoItem :=
  gallery_from 0 imgs.

Fixpoint update_item (i : nat) (f : PhotoItem -> PhotoItem) (g : list PhotoItem)
    : list PhotoItem :=
  match g, i with
  | [], _ => []
  | item :: rest, O => f item :: rest
  | item :: rest, S i' => item :: update_item i' f rest
  end.

(* img.onload of item i *)
Definition image_loads (i : nat) (g : list PhotoItem) : list PhotoItem :=
  update_item i (fun item =>
    {| item_src := item_src item; item_alt := item_alt item;
       item_loaded := true; item_error := item_error item |}) g.

(* img.onerror of item i; the text is what it writes to the console *)
Definition image_fails (i : nat) (g : list PhotoItem) : list PhotoItem * jsstring :=
  (update_item i (fun item =>
     {| item_src := item_src item; item_alt := item_alt item;
        item_loaded := item_loaded item; item_error := true |}) g,
   js "Failed to load image " ++ decimal (i + 1)).

(* the click listener of item i *)
Definition photo_item_click (i : nat) (g : list PhotoItem) (pv : Preview) : Preview :=
  match nth_error g i with
  | Some item => if item_error item then pv else openPhotoPreview (item_src item) pv
  | None => pv
  end.

(** *** Copying the link (handleCopyClick, copyToClipboard) *)

Record CopyButton : Type := {
  action_label : jsstring;         (* the text of the button's .action-label *)
  copied : bool;                   (* the button has class 'copied' *)
  restores : list jsstring         (* the 2000 ms timers not yet run, each with
                                      the originalText it captured *)
}.

(* handleCopyClick: the text handed to navigator.clipboard.writeText, if any *)
Definition handleCopyClick (st : Page) : option jsstring := current_videoUrl st.

(* copyToClipboard from the point where writeText settles;
   None: it resolved, Some err: it rejected *)
Definition copyToClipboard_settle (rejected : option js_error)
    (button : CopyButton) (st : Page) : CopyButton * Page :=
  match rejected with
  | None =>
      ({| action_label := js "Copied!"; copied := true;
          restores := restores button ++ [action_label button] |},
       showToast (js "Link copied to clipboard!") false st)
  | Some err =>
      (button,
       showToast (js "Failed to copy link") true
                 (log [ConsoleError (js "Failed to copy:") err] st))
  end.

(* the oldest pending 2000 ms timer runs *)
Definition copy_restore (button : CopyButton) : CopyButton :=
  match restores button with
  | [] => button
  | originalText :: rest =>
      {| action_label := originalText; copied := false; restores := rest |}
  end.

(** *** The favicon refresh on a colour-scheme change *)

(* href.split('?')[0] *)
Fixpoint before_question_mark (s : jsstring) : jsstring :=
  match s with
  | [] => []
  | c :: s' => if N.eqb c 63 then [] else c :: before_question_mark s'
  end.

(* the new href attribute: `${href}?t=${Date.now()}` *)
Definition refresh_favicon (href : jsstring) (now : N) : jsstring :=
  before_question_mark href ++ js "?t=" ++ decimal_N now.

(* nothing but white space *)
Definition blank (s : jsstring) : Prop := Forall (fun c => whitespace c = true) s.

(** ** Vocabulary for the properties of the handlers *)

(* how many hide timers of the toast are pending *)
Definition hide_timers (st : Page) : nat :=
  List.length (filter is_HideToast (timers st)).

(* the controllers of the pending lookups *)
Definition pending_controllers (st : Page) : list nat := map fst (in_flight st).

(* the toast and its hide timer go together *)
Definition toast_timer_ok (st : Page) : Prop :=
  hide_timers st = (if toast_active (toast st) then 1 else 0)%nat.

(* the controller slot, the loading flag and the pending lookups agree *)
Definition controller_ok (st : Page) : Prop :=
  (forall c, In c (pending_controllers st) -> (c < controllers st)%nat) /\
  NoDup (pending_controllers st) /\
  (forall c, In c (aborted st) -> (c < controllers st)%nat) /\
  match abortController st with
  | Some c => loading st = true /\ In c (pending_controllers st) /\ ~ In c (aborted st)
  | None => loading st = false
  end.

(* every pending lookup is for a trimmed text the validator accepts *)
Definition requests_ok (st : Page) : Prop :=
  Forall (fun r => isValidTikTokUrl (snd r) = true /\ trim (snd r) = snd r)
         (in_flight st).

(* the action that hands the media to the user *)
Definition is_delivery (e : effect) : bool :=
  match e with
  | AnchorClick _ _ _ _ => true
  | WindowOpen _ _ => true
  | _ => false
  end.

(* the text occurs in the string *)
Definition occurs_in (part s : jsstring) : Prop :=
  exists before after, s = before ++ part ++ after.

Inductive paste_event : Type :=
| Paste                       (* a paste event on the input *)
| PasteTimerRuns (id : nat).  (* the 500 ms of timer [id] are over *)

Definition paste_step (e : paste_event) (db : Debounce) : Debounce :=
  match e with
  | Paste => handlePaste db
  | PasteTimerRuns id => paste_timer_runs id db
  end.

Definition paste_run (es : list paste_event) (db : Debounce) : Debounce :=
  fold_left (fun acc e => paste_step e acc) es db.

(* the modal shows at most one of the video and the picture, and the page
   scrolls exactly when the modal is closed *)
Definition preview_ok (pv : Preview) : Prop :=
  (modal_active pv = true <-> body_overflow pv = js "hidden") /\
  match image_preview pv with
  | Some img =>
      (image_display img = js "block" /\ video_display pv = js "none") \/
      (image_display img = js "none" /\ video_display pv = js "block")
  | None => modal_active pv = true -> video_display pv = js "block"
  end.

(* n successful copies in a row, none of the restore timers run yet *)
Definition copy_times (n : nat) (button : CopyButton) (st : Page) : CopyButton :=
  Nat.iter n (fun b => fst (copyToClipboard_settle None b st)) button.

(* the n oldest restore timers run *)
Definition restore_times (n : nat) (button : CopyButton) : CopyButton :=
  Nat.iter n copy_restore button.

(** ** Sessions

    Everything the modelled handlers can do to the page, one action at a
    time: the events of the event loop above, and the handlers that reach
    the page from elsewhere (Enter in the input, the paste timer, the
    download link, a media fetch settling, a clipboard write settling). *)

Inductive action : Type :=
| PageEvent (e : event)
| KeyPressed (key : jsstring)                  (* handleKeyPress *)
| PasteTimerFires (pastedText : jsstring)      (* the callback set by handlePaste *)
| DownloadClicked (now : N)                    (* handleVideoDownload *)
| MediaSettles (ios : bool) (url filename : jsstring) (o : media_outcome)
| CopySettles (rejected : option js_error) (button : CopyButton).

Inductive act : Page -> action -> Page -> Prop :=
| act_event st e st' : step st e st' -> act st (PageEvent e) st'
| act_key st key : act st (KeyPressed key) (handleKeyPress key st)
| act_paste st text : act st (PasteTimerFires text) (handlePaste_callback text st)
| act_download st now :
    act st (DownloadClicked now) (fst (fst (handleVideoDownload now st)))
| act_media st ios url filename o :
    act st (MediaSettles ios url filename o)
        (fst (downloadMedia_settle ios url filename o st))
| act_copy st rejected button :
    act st (CopySettles rejected button)
        (snd (copyToClipboard_settle rejected button st)).

Inductive session : Page -> list action -> Page -> Prop :=
| session_nil st : session st [] st
| session_cons st a st1 rest st2 :
    act st a st1 -> session st1 rest st2 -> session st (a :: rest) st2.

(** * Properties *)

Unset Implicit Arguments.

(** ** The matcher decides the language of a pattern *)

Module RegexFacts.

Lemma matches_cat_nil r1 r2 :
  Matches (Cat r1 r2) [] -> Matches r1 [] /\ Matches r2 [].
Proof.
  intros H. remember (Cat r1 r2) as r eqn:Er. remember [] as w eqn:Ew.
  destruct H as [ | | q1 q2 s1 s2 H1 H2 | | | | ]; try discriminate.
  injection Er as -> ->.
  apply app_eq_nil in Ew. destruct Ew; subst. split; assumption.
Qed.

(* every match of a concatenation splits *)
Lemma matches_cat_inv r1 r2 s :
  Matches (Cat r1 r2) s ->
  exists s1 s2, s = s1 ++ s2 /\ Matches r1 s1 /\ Matches r2 s2.
Proof.
  intros H. remember (Cat r1 r2) as r eqn:Er.
  destruct H as [ | | q1 q2 s1 s2 H1 H2 | | | | ]; try discriminate.
  injection Er as -> ->. exists s1, s2. repeat split; assumption.
Qed.

Lemma matches_alt_inv r1 r2 s :
  Matches (Alt r1 r2) s -> Matches r1 s \/ Matches r2 s.
Proof.
  intros H. remember (Alt r1 r2) as r eqn:Er.
  destruct H; try discriminate; injection Er as -> ->; auto.
Qed.

Lemma matches_sym_inv p s :
  Matches (Sym p) s -> exists c, s = [c] /\ p c = true.
Proof.
  intros H. remember (Sym p) as r eqn:Er.
  destruct H; try discriminate. injection Er as ->. eauto.
Qed.

Lemma nullable_spec r : nullable r = true <-> Matches r [].
Proof.
  induction r as [ | | p | r1 IH1 r2 IH2 | r1 IH1 r2 IH2 | r IH]; simpl.
  - split; [discriminate | intros H; inversion H].
  - split; [intros _; constructor | reflexivity].
  - split; [discriminate | intros H; inversion H].
  - rewrite andb_true_iff, IH1, IH2. split.
    + intros [H1 H2]. apply (MCat H1 H2).
    + apply matches_cat_nil.
  - rewrite orb_true_iff, IH1, IH2. split.
    + intros [H | H]; [apply MAltL | apply MAltR]; assumption.
    + apply matches_alt_inv.
  - split; [intros _; constructor | reflexivity].
Qed.

(* a non-empty match of r* starts with a non-empty match of r *)
Lemma star_cons r c t :
  Matches (Star r) (c :: t) ->
  exists s1 s2, t = s1 ++ s2 /\ Matches r (c :: s1) /\ Matches (Star r) s2.
Proof.
  intros H. remember (Star r) as r' eqn:Er. remember (c :: t) as w eqn:Ew.
  revert t Ew.
  induction H as [ | | | | | | r0 s1 s2 H1 _ H2 IH2]; intros t Ew; try discriminate.
  injection Er as ->.
  destruct s1 as [ | c1 s1'].
  - simpl in Ew. apply IH2; [reflexivity | assumption].
  - simpl in Ew. injection Ew as -> <-.
    exists s1', s2. repeat split; assumption.
Qed.

Lemma deriv_sound c r : forall s, Matches (deriv c r) s -> Matches r (c :: s).
Proof.
  induction r as [ | | p | r1 IH1 r2 IH2 | r1 IH1 r2 IH2 | r IH]; simpl; intros s H.
  - inversion H.
  - inversion H.
  - destruct (p c) eqn:Hp; inversion H; subst. constructor. assumption.
  - destruct (nullable r1) eqn:Hn.
    + apply matches_alt_inv in H. destruct H as [HL | HR].
      * apply matches_cat_inv in HL. destruct HL as (s1 & s2 & -> & H1 & H2).
        apply (MCat (s1 := c :: s1) (IH1 _ H1) H2).
      * apply nullable_spec in Hn.
        apply (MCat (s1 := []) Hn (IH2 _ HR)).
    + apply matches_cat_inv in H. destruct H as (s1 & s2 & -> & H1 & H2).
      apply (MCat (s1 := c :: s1) (IH1 _ H1) H2).
  - apply matches_alt_inv in H.
    destruct H; [apply MAltL; apply IH1 | apply MAltR; apply IH2]; assumption.
  - apply matches_cat_inv in H. destruct H as (s1 & s2 & -> & H1 & H2).
    apply (MStarS (s1 := c :: s1) (IH _ H1) H2).
Qed.

Lemma deriv_complete c r : forall s, Matches r (c :: s) -> Matches (deriv c r) s.
Proof.
  induction r as [ | | p | r1 IH1 r2 IH2 | r1 IH1 r2 IH2 | r IH]; simpl; intros s H.
  - inversion H.
  - inversion H.
  - apply matches_sym_inv in H. destruct H as (c' & Heq & Hp).
    injection Heq as -> ->. rewrite Hp. constructor.
  - apply matches_cat_inv in H. destruct H as (s1 & s2 & Heq & H1 & H2).
    destruct s1 as [ | c1 s1'].
    + simpl in Heq. subst s2.
      apply nullable_spec in H1. rewrite H1.
      apply MAltR. apply IH2. assumption.
    + simpl in Heq. injection Heq as <- ->.
      assert (Hd : Matches (Cat (deriv c r1) r2) (s1' ++ s2))
        by (apply MCat; [apply IH1 | ]; assumption).
      destruct (nullable r1); [apply MAltL | ]; assumption.
  - apply matches_alt_inv in H.
    destruct H; [apply MAltL; apply IH1 | apply MAltR; apply IH2]; assumption.
  - apply star_cons in H. destruct H as (s1 & s2 & -> & H1 & H2).
    apply MCat; [apply IH | ]; assumption.
Qed.

Lemma match_full_spec s : forall r, match_full r s = true <-> Matches r s.
Proof.
  induction s as [ | c s IH]; intros r; simpl.
  - apply nullable_spec.
  - rewrite IH. split; [apply deriv_sound | apply deriv_complete].
Qed.

Lemma match_here_spec s : forall r,
  match_here r s = true <-> exists m rest, s = m ++ rest /\ Matches r m.
Proof.
  induction s as [ | c s IH]; intros r; simpl.
  - rewrite orb_false_r, nullable_spec. split.
    + intros H. exists [], []. split; [reflexivity | assumption].
    + intros (m & rest & Heq & H). symmetry in Heq.
      apply app_eq_nil in Heq. destruct Heq; subst. assumption.
  - rewrite orb_true_iff, nullable_spec, IH. split.
    + intros [H | (m & rest & -> & H)].
      * exists [], (c :: s). split; [reflexivity | assumption].
      * exists (c :: m), rest. split; [reflexivity | apply deriv_sound; assumption].
    + intros (m & rest & Heq & H). destruct m as [ | c' m'].
      * left. assumption.
      * simpl in Heq. injection Heq as <- ->. right.
        exists m', rest. split; [reflexivity | apply deriv_complete; assumption].
Qed.

(** [test] is true exactly on the strings with a matching substring. *)
Lemma test_spec r : forall s, test r s = true <-> contains_shape r s.
Proof.
  unfold contains_shape. induction s as [ | c s IH]; cbn [test].
  - rewrite orb_false_r, match_here_spec. split.
    + intros (m & rest & Heq & H). exists [], m, rest. split; assumption.
    + intros (before & m & rest & Heq & H). symmetry in Heq.
      apply app_eq_nil in Heq. destruct Heq as [-> Heq].
      exists m, rest. split; [symmetry; assumption | assumption].
  - rewrite orb_true_iff, match_here_spec, IH. split.
    + intros [(m & rest & Heq & H) | (before & m & rest & -> & H)].
      * exists [], m, rest. split; assumption.
      * exists (c :: before), m, rest. split; [reflexivity | assumption].
    + intros (before & m & rest & Heq & H). destruct before as [ | c' before'].
      * left. exists m, rest. split; assumption.
      * simpl in Heq. injection Heq as <- ->. right.
        exists before', m, rest. split; [reflexivity | assumption].
Qed.

(* a literal matches its own text *)
Lemma lit_matches s : Matches (lit s) (js s).
Proof.
  unfold lit, js. induction (list_ascii_of_string s) as [ | a l IH]; simpl.
  - constructor.
  - apply (MCat (s1 := [N_of_ascii a])); [ | exact IH].
    constructor. unfold chr. apply N.eqb_refl.
Qed.


Lemma contains_shape_extend r before s after :
  contains_shape r s -> contains_shape r (before ++ s ++ after).
Proof.
  intros (b & m & a & -> & H).
  exists (before ++ b), m, (a ++ after). split; [ | assumption].
  repeat rewrite <- app_assoc. reflexivity.
Qed.

End RegexFacts.

(** ** The URL validator *)

Lemma isValidTikTokUrl_spec s :
  isValidTikTokUrl s = true <-> exists r, In r patterns /\ contains_shape r s.
Proof.
  unfold isValidTikTokUrl. rewrite existsb_exists.
  split; intros (r & Hin & H); exists r; (split; [assumption | ]);
    apply RegexFacts.test_spec; assumption.
Qed.



(** C9.  The patterns are not anchored: a string that contains a matching
    shape anywhere is accepted, whatever surrounds the match. *)
Theorem C9_validator_is_unanchored (r : regex) (s : jsstring) :
  In r patterns -> contains_shape r s -> isValidTikTokUrl s = true.
Proof.
  intros Hin H. apply isValidTikTokUrl_spec. exists r. split; assumption.
Qed.

Lemma C9_validator_is_unanchored_witness :
  (In pattern_vm patterns /\
   contains_shape pattern_vm (js "https://evil.example/?q=vm.tiktok.com/abc") /\
   isValidTikTokUrl (js "https://evil.example/?q=vm.tiktok.com/abc") = true) /\
  (In pattern_video_handle patterns /\
   contains_shape pattern_video_handle (js "xtiktok.com/@a/video/1") /\
   isValidTikTokUrl (js "xtiktok.com/@a/video/1") = true).
Proof.
  assert (H1 : In pattern_vm patterns) by (simpl; tauto).
  assert (H2 : contains_shape pattern_vm (js "https://evil.example/?q=vm.tiktok.com/abc")).
  { exists (js "https://evil.example/?q="), (js "vm.tiktok.com/abc"), [].
    split; [reflexivity | ].
    apply RegexFacts.match_full_spec. vm_compute. reflexivity. }
  assert (H3 : In pattern_video_handle patterns) by (simpl; tauto).
  assert (H4 : contains_shape pattern_video_handle (js "xtiktok.com/@a/video/1")).
  { exists (js "x"), (js "tiktok.com/@a/video/1"), [].
    split; [reflexivity | ].
    apply RegexFacts.match_full_spec. vm_compute. reflexivity. }
  split; (split; [assumption | split; [assumption | ]]).
  - exact (C9_validator_is_unanchored _ _ H1 H2).
  - exact (C9_validator_is_unanchored _ _ H3 H4).
Defined.

(** ** The lookup client and the normaliser *)

Lemma lookup_success d m :
  fetchTikTokData (successful d m) = ([], Return (normalize d)).
Proof. reflexivity. Qed.

(* fetchTikTokData returns only on a 2xx JSON answer with code 0 and data *)
Lemma lookup_returns_inv o entries r :
  fetchTikTokData o = (entries, Return r) ->
  exists d m, o = successful d m /\ entries = [] /\ r = normalize d.
Proof.
  unfold fetchTikTokData.
  destruct (fetchTikTokData_try o) as [r' | e] eqn:E; [ | discriminate].
  intros H. injection H as <- ->.
  destruct o as [e | ok b]; simpl in E; [discriminate | ].
  destruct ok; simpl in E; [ | discriminate].
  destruct b as [[c m dat] | e]; simpl in E; [ | discriminate].
  destruct c as [ | | z]; simpl in E; try discriminate.
  destruct (Z.eqb_spec z 0) as [-> | ]; simpl in E; [ | discriminate].
  unfold read_data in E. simpl in E.
  destruct dat as [ | | d]; simpl in E; try discriminate.
  injection E as <-. exists d, m. repeat split.
Qed.

Lemma truthy_or_else a b :
  truthy (or_else a b) = truthy a || truthy b.
Proof. unfold or_else. destruct (truthy a) eqn:E; [rewrite E | ]; reflexivity. Qed.

Lemma isPhoto_true_iff imgs :
  truthy_bool (compute_isPhoto imgs) = true <-> exists x l, imgs = Value (x :: l).
Proof.
  destruct imgs as [ | | [ | x l]]; simpl; split;
    try discriminate; try (intros (? & ? & ?); discriminate); eauto.
Qed.



Lemma first_non_empty_or_else a b c :
  match first_non_empty [a; b; c] with
  | Some url => or_else (or_else a b) c = Value url
  | None => truthy (or_else (or_else a b) c) = false
  end.
Proof.
  unfold or_else.
  destruct a as [ | | [ | ? ?]], b as [ | | [ | ? ?]], c as [ | | [ | ? ?]];
    reflexivity.
Qed.

(** C6.  When the response has no images (the property is missing, null, or
    an empty array), the lookup's videoUrl is the first non-empty one of
    hdplay, play, wmplay, in that order (and is falsy when all three are);
    with hdplay = "A" and play = "B" it is "A". *)
Theorem C6_videoUrl_follows_the_priority_order (d : Api.Data) (m : field jsstring) :
  Api.images d = Undefined \/ Api.images d = Null \/ Api.images d = Value [] ->
  exists r, fetchTikTokData (successful d m) = ([], Return r) /\
    match first_non_empty [Api.hdplay d; Api.play d; Api.wmplay d] with
    | Some url => videoUrl r = Value url
    | None => truthy (videoUrl r) = false
    end /\
    (Api.hdplay d = Value (js "A") -> Api.play d = Value (js "B") ->
     videoUrl r = Value (js "A")).
Proof.
  intros Himg. exists (normalize d). split; [reflexivity | ].
  assert (Hv : videoUrl (normalize d) =
               or_else (or_else (Api.hdplay d) (Api.play d)) (Api.wmplay d)).
  { unfold normalize. simpl.
    destruct Himg as [-> | [-> | ->]]; reflexivity. }
  rewrite Hv. split.
  - apply first_non_empty_or_else.
  - intros -> ->. reflexivity.
Qed.

Lemma C6_videoUrl_follows_the_priority_order_witness :
  (Api.images video_data = Undefined \/ Api.images video_data = Null \/
   Api.images video_data = Value []) /\
  exists r, fetchTikTokData (successful video_data Undefined) = ([], Return r) /\
    videoUrl r = Value (js "A") /\
    (Api.hdplay video_data = Value (js "A") -> Api.play video_data = Value (js "B") ->
     videoUrl r = Value (js "A")).
Proof.
  split; [left; reflexivity | ].
  exact (@C6_videoUrl_follows_the_priority_order video_data Undefined
           (or_introl eq_refl)).
Defined.


(** ** Title, author and the '@' prefix *)

Lemma normalized_author_non_empty d : author (normalize d) <> [].
Proof.
  unfold normalize; simpl.
  destruct (or_else (opt_chain (Api.author d) Api.unique_id)
                    (opt_chain (Api.author d) Api.nickname)) as [ | | [ | c s]];
    simpl; discriminate.
Qed.

Lemma render_head_author r st :
  author r <> [] ->
  videoAuthor (view (with_view (render_head r) st)) = author_label (author r).
Proof.
  intros Hne. simpl. unfold or_text.
  destruct (author r); [contradiction | reflexivity].
Qed.

Lemma displayed_author_eq d m st :
  displayed_author d m st = author_label (author (normalize d)).
Proof.
  unfold displayed_author, handleDownload_settle.
  rewrite lookup_success. unfold displayResult.
  pose proof (normalized_author_non_empty d) as Hne.
  destruct (truthy_bool (isPhoto (normalize d))) eqn:Hp.
  - apply isPhoto_true_iff in Hp. destruct Hp as (x & l & Himg).
    assert (Hi : images (normalize d) = Value (x :: l)).
    { unfold normalize. simpl. rewrite Himg. reflexivity. }
    rewrite Hi.
    exact (@render_head_author (normalize d)
             (set_currentVideoData (Some (normalize d)) (log [] st)) Hne).
  - exact (@render_head_author (normalize d)
             (set_currentVideoData (Some (normalize d)) (log [] st)) Hne).
Qed.

Lemma leading_ats_author_label a :
  leading_ats (author_label a) = Nat.max 1 (leading_ats a).
Proof.
  unfold author_label, startsWith_at.
  destruct a as [ | c s]; [reflexivity | ].
  simpl. destruct (N.eqb c 64) eqn:E; simpl; [rewrite E | rewrite E]; reflexivity.
Qed.

(** C7, as the code has it.  The normalised title is the response's title
    when that is non-empty and "TikTok Content" otherwise; the normalised
    author is the first non-empty one of author.unique_id and
    author.nickname, and "@tiktok" when there is none.  The author shown on
    the page always starts with "@": a normalised author that does not start
    with "@" is shown with one "@" in front, and one that already starts
    with "@" is shown unchanged, so the page never adds a second "@" and the
    number of leading "@" is one unless the source value itself starts with
    more.  unique_id "foo" is shown as "@foo", and "@foo" stays "@foo". *)
Theorem C7_fallbacks_and_at_prefix (d : Api.Data) (m : field jsstring) (st : Page) :
  let uid := opt_chain (Api.author d) Api.unique_id in
  let nick := opt_chain (Api.author d) Api.nickname in
  fetchTikTokData (successful d m) = ([], Return (normalize d)) /\
  title (normalize d) =
    match first_non_empty [Api.title d] with
    | Some t => t
    | None => js "TikTok Content"
    end /\
  author (normalize d) =
    match first_non_empty [uid; nick] with
    | Some a => a
    | None => js "@tiktok"
    end /\
  displayed_author d m st =
    (if startsWith_at (author (normalize d)) then author (normalize d)
     else js "@" ++ author (normalize d)) /\
  startsWith_at (displayed_author d m st) = true /\
  leading_ats (displayed_author d m st) = Nat.max 1 (leading_ats (author (normalize d))) /\
  (forall n, displayed_author (with_author (author_named (Value (js "foo")) n) d) m st
             = js "@foo") /\
  (forall n, displayed_author (with_author (author_named (Value (js "@foo")) n) d) m st
             = js "@foo").
Proof.
  intros uid nick. split; [reflexivity | ]. split; [ | split].
  - unfold normalize; simpl. destruct (Api.title d) as [ | | [ | c s]]; reflexivity.
  - unfold normalize; simpl. fold uid nick. unfold or_else.
    destruct uid as [ | | [ | c s]], nick as [ | | [ | c' s']]; reflexivity.
  - rewrite displayed_author_eq. split; [reflexivity | ]. split; [ | split; [ | split]].
    + unfold author_label. destruct (startsWith_at (author (normalize d))) eqn:E.
      * assumption.
      * reflexivity.
    + apply leading_ats_author_label.
    + intros n. rewrite displayed_author_eq. reflexivity.
    + intros n. rewrite displayed_author_eq. reflexivity.
Qed.

(** C7, as stated, fails: a response without unique_id whose nickname is
    "@@x" is shown as "@@x", which starts with two "@". *)
Lemma C7_counterexample_two_leading_ats :
  displayed_author double_at_data Undefined initial_page = js "@@x" /\
  leading_ats (displayed_author double_at_data Undefined initial_page) = 2%nat /\
  ~ (forall d m st, leading_ats (displayed_author d m st) = 1%nat).
Proof.
  split; [reflexivity | ]. split; [reflexivity | ].
  intros H. specialize (H double_at_data Undefined initial_page).
  vm_compute in H. discriminate.
Qed.

(** ** Failures of the lookup *)

(* whatever is thrown inside fetchTikTokData's try block reaches the user
   as the generic message, after being logged *)
Lemma settle_of_failure o e st :
  fetchTikTokData_try o = Throw e ->
  fetchTikTokData o =
    ([ConsoleError (js "API Error:") e], Throw (new_Error generic_lookup_message)) /\
  handleDownload_settle o st =
    handleDownload_finally
      (log [ConsoleError (js "Download error:") (new_Error generic_lookup_message)]
         (showError generic_lookup_message
            (log [ConsoleError (js "API Error:") e] st))).
Proof.
  intros H. unfold handleDownload_settle, fetchTikTokData. rewrite H.
  split; reflexivity.
Qed.

(** C8.  When fetch rejects (a network error) or the body cannot be read as
    JSON, the lookup fails with the fixed message "Unable to fetch content.
    Please check the URL and try again."; that message is what the user is
    shown, it is the same whatever the original error was, and the original
    error is written to the console. *)
Theorem C8_network_and_parse_failures_are_generic (e : js_error) (st : Page) :
  let shown := {| toastMessage := generic_lookup_message;
                  toast_is_error := true; toast_active := true |} in
  let logged := [ConsoleError (js "API Error:") e;
                 ConsoleError (js "Download error:") (new_Error generic_lookup_message)] in
  generic_lookup_message =
    js "Unable to fetch content. Please check the URL and try again." /\
  (fetchTikTokData (FetchRejected e) =
     ([ConsoleError (js "API Error:") e], Throw (new_Error generic_lookup_message)) /\
   toast (handleDownload_settle (FetchRejected e) st) = shown /\
   console (handleDownload_settle (FetchRejected e) st) = console st ++ logged) /\
  (fetchTikTokData (FetchResponse true (BodyRejected e)) =
     ([ConsoleError (js "API Error:") e], Throw (new_Error generic_lookup_message)) /\
   toast (handleDownload_settle (FetchResponse true (BodyRejected e)) st) = shown /\
   console (handleDownload_settle (FetchResponse true (BodyRejected e)) st) =
     console st ++ logged) /\
  (forall e', toast (handleDownload_settle (FetchRejected e') st) =
              toast (handleDownload_settle (FetchRejected e) st)) /\
  (forall e', toast (handleDownload_settle (FetchResponse true (BodyRejected e')) st) =
              toast (handleDownload_settle (FetchResponse true (BodyRejected e)) st)).
Proof.
  intros shown logged. split; [reflexivity | ].
  assert (Hf : forall x, fetchTikTokData_try (FetchRejected x) = Throw x) by reflexivity.
  assert (Hb : forall x, fetchTikTokData_try (FetchResponse true (BodyRejected x)) = Throw x)
    by reflexivity.
  assert (Hconsole : forall o x, fetchTikTokData_try o = Throw x ->
            console (handleDownload_settle o st) =
            console st ++ [ConsoleError (js "API Error:") x;
                           ConsoleError (js "Download error:")
                                        (new_Error generic_lookup_message)]).
  { intros o x H. destruct (settle_of_failure o x st H) as [_ ->]. simpl.
    rewrite <- app_assoc. reflexivity. }
  assert (Htoast : forall o x, fetchTikTokData_try o = Throw x ->
            toast (handleDownload_settle o st) = shown).
  { intros o x H. destruct (settle_of_failure o x st H) as [_ ->]. reflexivity. }
  split; [ | split; [ | split]].
  - split; [reflexivity | ]. split.
    + apply (Htoast _ e (Hf e)).
    + apply (Hconsole _ e (Hf e)).
  - split; [reflexivity | ]. split.
    + apply (Htoast _ e (Hb e)).
    + apply (Hconsole _ e (Hb e)).
  - intros e'. rewrite (Htoast _ e (Hf e)). apply (Htoast _ e' (Hf e')).
  - intros e'. rewrite (Htoast _ e (Hb e)). apply (Htoast _ e' (Hb e')).
Qed.

(** C2, at the failing input.  The API answers 2xx with code = 1 and
    msg = "rate limited".  The error built from msg is thrown inside the try
    block, caught by the same function, logged, and replaced: the user is
    shown the generic message, not "rate limited". *)
Theorem C2_api_message_is_replaced_by_the_generic_one (st : Page) :
  fetchTikTokData_try rate_limited = Throw (new_Error (js "rate limited")) /\
  fetchTikTokData rate_limited =
    ([ConsoleError (js "API Error:") (new_Error (js "rate limited"))],
     Throw (new_Error generic_lookup_message)) /\
  toastMessage (toast (handleDownload_settle rate_limited st)) =
    js "Unable to fetch content. Please check the URL and try again." /\
  toastMessage (toast (handleDownload_settle rate_limited st)) <> js "rate limited".
Proof.
  assert (Ht : fetchTikTokData_try rate_limited = Throw (new_Error (js "rate limited")))
    by reflexivity.
  destruct (settle_of_failure _ _ st Ht) as [Hl Hs].
  split; [exact Ht | ]. split; [exact Hl | ].
  rewrite Hs. split; [reflexivity | ].
  simpl. vm_compute. discriminate.
Qed.

(** ** Superseded lookups *)

(* starting a lookup aborts the controller found in the slot and installs a
   fresh one *)
Lemma handleDownload_start_supersedes st c :
  abortController st = Some c ->
  trim (input_value st) <> [] ->
  isValidTikTokUrl (trim (input_value st)) = true ->
  In c (aborted (handleDownload_start st)) /\
  abortController (handleDownload_start st) = Some (controllers st) /\
  loading (handleDownload_start st) = true /\
  in_flight (handleDownload_start st) =
    in_flight st ++ [(controllers st, trim (input_value st))].
Proof.
  intros Hslot Hne Hvalid. unfold handleDownload_start.
  destruct (trim (input_value st)) as [ | u url] eqn:E; [contradiction | ].
  rewrite Hvalid. simpl. unfold abort_current. rewrite Hslot.
  repeat split. left. reflexivity.
Qed.

(* a lookup that settles by an abort rejection is reported like any other
   failure, and the finally block runs *)
Lemma settle_of_abort_rejection o st :
  abort_rejection o ->
  let after := handleDownload_settle o st in
  toast after = {| toastMessage := generic_lookup_message;
                   toast_is_error := true; toast_active := true |} /\
  input_error after = true /\
  loading after = false /\
  abortController after = None.
Proof.
  intros Ha.
  assert (He : exists e, fetchTikTokData_try o = Throw e).
  { destruct o as [e | [ | ] [r | e]]; simpl in Ha; try contradiction;
      eexists; reflexivity. }
  destruct He as (e & He).
  destruct (settle_of_failure _ _ st He) as [_ Hs].
  cbv zeta. rewrite Hs. repeat split.
Qed.

(** C1, at the failing input.  Lookup A is started, then lookup B while A
    is pending; starting B aborts A's controller.  When A then settles with
    the AbortError, fetchTikTokData's catch replaces it by a plain Error, so
    the handler's AbortError test does not fire: A's resolution shows an
    error toast, marks the input as wrong, clears the loading flag and
    empties the controller slot, all while B is still pending. *)
Theorem C1_superseded_lookup_resolution_is_observable :
  exists before,
    run initial_page [Typed url_A; Submit; Typed url_B; Submit] before /\
    in_flight before = [(0%nat, url_A); (1%nat, url_B)] /\
    aborted before = [0%nat] /\
    abortController before = Some 1%nat /\
    loading before = true /\
    input_error before = false /\
    toast_active (toast before) = false /\
    console before = [] /\
    let after := handleDownload_settle (FetchRejected abort_error) (forget 0 before) in
    step before (Settles 0 (FetchRejected abort_error)) after /\
    in_flight after = [(1%nat, url_B)] /\
    toast after = {| toastMessage := generic_lookup_message;
                     toast_is_error := true; toast_active := true |} /\
    input_error after = true /\
    loading after = false /\
    abortController after = None /\
    console after =
      [ConsoleError (js "API Error:") abort_error;
       ConsoleError (js "Download error:") (new_Error generic_lookup_message)].
Proof.
  eexists. split.
  { eapply run_cons; [apply step_typed | ].
    eapply run_cons; [apply step_submit | ].
    eapply run_cons; [apply step_typed | ].
    eapply run_cons; [apply step_submit | ].
    apply run_nil. }
  repeat (split; [vm_compute; reflexivity | ]).
  cbv zeta. split.
  { apply step_settles with (url := url_A).
    - vm_compute. left. reflexivity.
    - intros _. vm_compute. reflexivity. }
  repeat split; vm_compute; reflexivity.
Qed.

(** ** The download dispatcher *)




(** * Further properties of the script *)

(** ** More on patterns and on trim *)

Module PatternFacts.

Import RegexFacts.

Lemma matches_eps_inv s : Matches Eps s -> s = [].
Proof.
  intros H. remember Eps as r eqn:Er. destruct H; try discriminate. reflexivity.
Qed.

(* a literal matches nothing but its own text *)
Lemma lit_chars_inv l : forall s, Matches (lit_chars l) s -> s = map N_of_ascii l.
Proof.
  induction l as [ | a l IH]; simpl; intros s H.
  - apply matches_eps_inv. assumption.
  - apply matches_cat_inv in H. destruct H as (s1 & s2 & -> & H1 & H2).
    apply matches_sym_inv in H1. destruct H1 as (c & -> & Hc).
    unfold chr in Hc. apply N.eqb_eq in Hc. subst c.
    simpl. f_equal. apply IH. assumption.
Qed.

Lemma lit_inv h s : Matches (lit h) s -> s = js h.
Proof. apply lit_chars_inv. Qed.

(* what follows a literal prefix *)
Lemma lit_cat_inv h r s :
  Matches (Cat (lit h) r) s -> exists w, s = js h ++ w /\ Matches r w.
Proof.
  intros H. apply matches_cat_inv in H. destruct H as (s1 & s2 & -> & H1 & H2).
  apply lit_inv in H1. subst s1. exists s2. split; [reflexivity | assumption].
Qed.

Lemma star_sym_forall p s :
  Matches (Star (Sym p)) s -> Forall (fun c => p c = true) s.
Proof.
  intros H. remember (Star (Sym p)) as r eqn:Er.
  induction H as [ | | | | | | r0 s1 s2 H1 _ H2 IH2]; try discriminate.
  - constructor.
  - injection Er as ->. apply matches_sym_inv in H1.
    destruct H1 as (c & -> & Hc). simpl. constructor; [assumption | ].
    apply IH2. reflexivity.
Qed.

Lemma forall_star_sym p s :
  Forall (fun c => p c = true) s -> Matches (Star (Sym p)) s.
Proof.
  induction 1 as [ | c s Hc _ IH].
  - constructor.
  - apply (MStarS (s1 := [c])); [constructor; assumption | exact IH].
Qed.

(* a match of [class]+ is a non-empty run of the class *)
Lemma plus_sym_inv p s :
  Matches (plus (Sym p)) s ->
  exists c rest, s = c :: rest /\ p c = true /\ Forall (fun x => p x = true) rest.
Proof.
  intros H. apply matches_cat_inv in H. destruct H as (s1 & s2 & -> & H1 & H2).
  apply matches_sym_inv in H1. destruct H1 as (c & -> & Hc).
  exists c, s2. repeat split; [assumption | apply star_sym_forall; assumption].
Qed.

(* ... so it ends with a character of the class *)
Lemma plus_sym_last p s :
  Matches (plus (Sym p)) s -> exists init l, s = init ++ [l] /\ p l = true.
Proof.
  intros H. apply plus_sym_inv in H. destruct H as (c & rest & -> & Hc & Hrest).
  destruct (@exists_last _ (c :: rest)) as (init & l & Heq); [discriminate | ].
  exists init, l. split; [assumption | ].
  assert (Hall : Forall (fun x => p x = true) (init ++ [l]))
    by (rewrite <- Heq; constructor; assumption).
  apply Forall_app in Hall. destruct Hall as [_ Hl].
  inversion Hl; assumption.
Qed.

Ltac bools_to_props H :=
  repeat (rewrite orb_true_iff in H || rewrite andb_true_iff in H ||
          rewrite N.leb_le in H || rewrite N.eqb_eq in H).

(* the classes that end a pattern contain no white space *)
Lemma token_not_whitespace c : token_class c = true -> whitespace c = false.
Proof.
  intros H. destruct (whitespace c) eqn:W; [exfalso | reflexivity].
  unfold token_class, class, existsb, word, chr, in_range in H.
  unfold whitespace, in_range in W.
  bools_to_props H. bools_to_props W. simpl N_of_ascii in H.
  intuition (try discriminate; lia).
Qed.

Lemma digit_not_whitespace c : digit c = true -> whitespace c = false.
Proof.
  intros H. destruct (whitespace c) eqn:W; [exfalso | reflexivity].
  unfold digit, in_range in H. unfold whitespace, in_range in W.
  bools_to_props H. bools_to_props W.
  intuition (try discriminate; lia).
Qed.

(* the characters a handle may contain are all matched by the dot *)
Lemma handle_is_dot c : handle_class c = true -> dot c = true.
Proof.
  intros H. unfold dot. destruct (line_terminator c) eqn:W; [exfalso | reflexivity].
  unfold handle_class, class, existsb, word, chr, in_range in H.
  unfold line_terminator in W.
  bools_to_props H. bools_to_props W. simpl N_of_ascii in H.
  intuition (try discriminate; lia).
Qed.

End PatternFacts.

Module TrimFacts.

Lemma trimStart_split s : exists a, s = a ++ trimStart s /\ blank a.
Proof.
  induction s as [ | c s (a & Heq & Ha)]; simpl.
  - exists []. split; [reflexivity | constructor].
  - destruct (whitespace c) eqn:W.
    + exists (c :: a). split; [simpl; f_equal; exact Heq | constructor; assumption].
    + exists []. split; [reflexivity | constructor].
Qed.

Lemma trimStart_head s c rest : trimStart s = c :: rest -> whitespace c = false.
Proof.
  induction s as [ | x s IH]; simpl; [discriminate | ].
  destruct (whitespace x) eqn:W; [exact IH | ].
  intros H. injection H as -> _. assumption.
Qed.

Lemma trimStart_blank s : blank s -> trimStart s = [].
Proof.
  induction 1 as [ | c s Hc _ IH]; simpl; [reflexivity | ].
  rewrite Hc. exact IH.
Qed.

(* trimStart stops at the first character that is not white space *)
Lemma trimStart_keeps before c rest :
  whitespace c = false ->
  exists cut kept, before = cut ++ kept /\
                   trimStart (before ++ c :: rest) = kept ++ c :: rest.
Proof.
  intros Hc. induction before as [ | x before (cut & kept & Heq & Ht)]; simpl.
  - rewrite Hc. exists [], []. split; reflexivity.
  - destruct (whitespace x) eqn:W.
    + exists (x :: cut), kept. split; [simpl; f_equal; exact Heq | exact Ht].
    + exists [], (x :: before). split; reflexivity.
Qed.

(* trim cuts white space, and only white space, from both ends *)
Lemma trim_split s : exists a b, s = a ++ trim s ++ b /\ blank a /\ blank b.
Proof.
  unfold trim.
  destruct (trimStart_split s) as (a & Hs & Ha).
  destruct (trimStart_split (rev (trimStart s))) as (b & Hr & Hb).
  exists a, (rev b). split; [ | split; [assumption | apply Forall_rev; assumption]].
  rewrite <- rev_app_distr, <- Hr, rev_involutive. exact Hs.
Qed.

(* what trim leaves is empty or has no white space at either end *)
Lemma trim_ends s :
  trim s = [] \/
  exists c rest init l,
    trim s = c :: rest /\ trim s = init ++ [l] /\
    whitespace c = false /\ whitespace l = false.
Proof.
  unfold trim.
  destruct (trimStart_split (rev (trimStart s))) as (b & Hr & Hb).
  destruct (trimStart (rev (trimStart s))) as [ | l u] eqn:Hu; [left; reflexivity | right].
  pose proof (trimStart_head _ _ _ Hu) as Hl.
  assert (Ht : trimStart s = (rev u ++ [l]) ++ rev b).
  { rewrite <- (rev_involutive (trimStart s)), Hr, rev_app_distr. reflexivity. }
  simpl rev.
  destruct (rev u ++ [l]) as [ | c rest] eqn:Hc.
  - destruct (rev u); discriminate.
  - exists c, rest, (rev u), l. repeat split; try assumption.
    + symmetry. exact Hc.
    + simpl in Ht. apply (trimStart_head _ _ _ Ht).
Qed.

Lemma trim_blank s : blank s -> trim s = [].
Proof.
  intros H. unfold trim. rewrite (trimStart_blank _ H). reflexivity.
Qed.

(* a part of the text that neither starts nor ends with white space
   survives trim *)
Lemma trim_keeps before after c rest init l :
  c :: rest = init ++ [l] ->
  whitespace c = false -> whitespace l = false ->
  exists cut kept kept' cut',
    before = cut ++ kept /\ after = kept' ++ cut' /\
    trim (before ++ (c :: rest) ++ after) = kept ++ (c :: rest) ++ kept'.
Proof.
  intros Hm Hc Hl. unfold trim.
  destruct (trimStart_keeps before c (rest ++ after) Hc) as (cut & kept & Hb & Ht).
  change (before ++ (c :: rest) ++ after) with (before ++ c :: (rest ++ after)).
  rewrite Ht.
  assert (Hrev : rev (kept ++ c :: rest ++ after) = rev after ++ l :: rev init ++ rev kept).
  { change (c :: rest ++ after) with ((c :: rest) ++ after).
    rewrite Hm. repeat rewrite rev_app_distr. simpl.
    repeat rewrite <- app_assoc. reflexivity. }
  rewrite Hrev.
  destruct (trimStart_keeps (rev after) l (rev init ++ rev kept) Hl) as (cut' & kept' & Ha & Ht').
  rewrite Ht'.
  exists cut, kept, (rev kept'), (rev cut'). split; [assumption | ]. split.
  - rewrite <- rev_app_distr, <- Ha, rev_involutive. reflexivity.
  - rewrite rev_app_distr. simpl. repeat rewrite rev_app_distr.
    repeat rewrite rev_involutive. simpl.
    change (c :: rest ++ rev kept') with ((c :: rest) ++ rev kept').
    rewrite Hm. repeat rewrite <- app_assoc. reflexivity.
Qed.

Lemma trim_idempotent s : trim (trim s) = trim s.
Proof.
  destruct (trim_ends s) as [-> | (c & rest & init & l & Hc & Hl & Wc & Wl)];
    [reflexivity | ].
  rewrite Hc in Hl.
  destruct (trim_keeps [] [] c rest init l Hl Wc Wl)
    as (cut & kept & kept' & cut' & Hb & Ha & Ht).
  symmetry in Hb, Ha.
  apply app_eq_nil in Hb. destruct Hb as [_ ->].
  apply app_eq_nil in Ha. destruct Ha as [-> _].
  simpl in Ht. rewrite app_nil_r in Ht. rewrite Hc. exact Ht.
Qed.

End TrimFacts.

(** ** The validator, further *)

Module ValidatorFacts.

Import RegexFacts PatternFacts TrimFacts.

(* every pattern ends with [class]+ for a class without white space *)
Lemma path_tail_last x kind m :
  Matches (Cat x (Cat (lit kind) (plus (Sym digit)))) m ->
  exists init l, m = init ++ [l] /\ whitespace l = false.
Proof.
  intros H. apply matches_cat_inv in H. destruct H as (s1 & s2 & -> & _ & H).
  apply matches_cat_inv in H. destruct H as (s3 & s4 & -> & _ & H).
  apply plus_sym_last in H. destruct H as (init & l & -> & Hl).
  exists (s1 ++ s3 ++ init), l. split.
  - repeat rewrite <- app_assoc. reflexivity.
  - apply digit_not_whitespace. assumption.
Qed.

Lemma token_tail_last m :
  Matches (plus (Sym token_class)) m ->
  exists init l, m = init ++ [l] /\ whitespace l = false.
Proof.
  intros H. apply plus_sym_last in H. destruct H as (init & l & -> & Hl).
  exists init, l. split; [reflexivity | apply token_not_whitespace; assumption].
Qed.

(* what every match of one of the seven patterns looks like *)
Lemma match_facts r m :
  In r patterns -> Matches r m ->
  (exists c rest, m = c :: rest /\ whitespace c = false) /\
  (exists init l, m = init ++ [l] /\ whitespace l = false) /\
  (exists a b, m = a ++ js "tiktok.com/" ++ b).
Proof.
  unfold patterns. simpl.
  intros [<- | [<- | [<- | [<- | [<- | [<- | [<- | []]]]]]]] H;
    apply lit_cat_inv in H; destruct H as (w & -> & H).
  - split; [ | split].
    + eexists _, _. split; [reflexivity | vm_compute; reflexivity].
    + destruct (path_tail_last _ _ _ H) as (init & l & -> & Hl).
      exists (js "tiktok.com/@" ++ init), l. split; [ | assumption].
      rewrite <- app_assoc. reflexivity.
    + exists [], (js "@" ++ w). reflexivity.
  - split; [ | split].
    + eexists _, _. split; [reflexivity | vm_compute; reflexivity].
    + destruct (path_tail_last _ _ _ H) as (init & l & -> & Hl).
      exists (js "tiktok.com/" ++ init), l. split; [ | assumption].
      rewrite <- app_assoc. reflexivity.
    + exists [], w. reflexivity.
  - split; [ | split].
    + eexists _, _. split; [reflexivity | vm_compute; reflexivity].
    + destruct (path_tail_last _ _ _ H) as (init & l & -> & Hl).
      exists (js "tiktok.com/@" ++ init), l. split; [ | assumption].
      rewrite <- app_assoc. reflexivity.
    + exists [], (js "@" ++ w). reflexivity.
  - split; [ | split].
    + eexists _, _. split; [reflexivity | vm_compute; reflexivity].
    + destruct (path_tail_last _ _ _ H) as (init & l & -> & Hl).
      exists (js "tiktok.com/" ++ init), l. split; [ | assumption].
      rewrite <- app_assoc. reflexivity.
    + exists [], w. reflexivity.
  - split; [ | split].
    + eexists _, _. split; [reflexivity | vm_compute; reflexivity].
    + destruct (token_tail_last _ H) as (init & l & -> & Hl).
      exists (js "vm.tiktok.com/" ++ init), l. split; [ | assumption].
      rewrite <- app_assoc. reflexivity.
    + exists (js "vm."), w. reflexivity.
  - split; [ | split].
    + eexists _, _. split; [reflexivity | vm_compute; reflexivity].
    + destruct (token_tail_last _ H) as (init & l & -> & Hl).
      exists (js "vt.tiktok.com/" ++ init), l. split; [ | assumption].
      rewrite <- app_assoc. reflexivity.
    + exists (js "vt."), w. reflexivity.
  - split; [ | split].
    + eexists _, _. split; [reflexivity | vm_compute; reflexivity].
    + destruct (token_tail_last _ H) as (init & l & -> & Hl).
      exists (js "tiktok.com/t/" ++ init), l. split; [ | assumption].
      rewrite <- app_assoc. reflexivity.
    + exists [], (js "t/" ++ w). reflexivity.
Qed.

(* trim neither creates nor destroys a match of one of the patterns *)
Lemma trim_keeps_every_shape r s :
  In r patterns -> (contains_shape r (trim s) <-> contains_shape r s).
Proof.
  intros Hin. split.
  - intros H. destruct (trim_split s) as (a & b & Hs & _ & _).
    rewrite Hs. apply contains_shape_extend. assumption.
  - intros (before & m & after & -> & H).
    destruct (match_facts r m Hin H)
      as ((c & rest & -> & Hc) & (init & l & Hl & Wl) & _).
    destruct (trim_keeps before after c rest init l Hl Hc Wl)
      as (cut & kept & kept' & cut' & _ & _ & Ht).
    rewrite Ht. exists kept, (c :: rest), kept'. split; [reflexivity | assumption].
Qed.

(* trimming keeps the validator's answer *)
Lemma trim_keeps_the_verdict (s : jsstring) :
  isValidTikTokUrl (trim s) = isValidTikTokUrl s.
Proof.
  apply eq_true_iff_eq. rewrite !isValidTikTokUrl_spec.
  split; intros (r & Hin & H); exists r; (split; [assumption | ]);
    apply (trim_keeps_every_shape r s Hin); assumption.
Qed.

(** X1.  White space around the text never changes the validator's answer:
    the trimmed text is accepted exactly when the text as typed is.  So the
    check handlePaste makes on the trimmed clipboard text and the check
    handleDownload makes on the trimmed input agree with the untrimmed
    ones. *)
Theorem validator_ignores_outer_whitespace (s : jsstring) :
  isValidTikTokUrl (trim s) = isValidTikTokUrl s.
Proof.
  destruct (isValidTikTokUrl s) eqn:E.
  - apply isValidTikTokUrl_spec in E. destruct E as (r & Hin & H).
    apply isValidTikTokUrl_spec. exists r. split; [assumption | ].
    apply (trim_keeps_every_shape r s Hin). assumption.
  - destruct (isValidTikTokUrl (trim s)) eqn:T; [ | reflexivity].
    apply isValidTikTokUrl_spec in T. destruct T as (r & Hin & H).
    apply (trim_keeps_every_shape r s Hin) in H.
    assert (V : isValidTikTokUrl s = true)
      by (apply isValidTikTokUrl_spec; exists r; split; assumption).
    rewrite V in E. discriminate.
Qed.

(** X2.  Every accepted text contains "tiktok.com/": no pattern can match
    without the platform's host name followed by a slash. *)
Theorem accepted_text_names_the_host (s : jsstring) :
  isValidTikTokUrl s = true ->
  exists a b, s = a ++ js "tiktok.com/" ++ b.
Proof.
  intros H. apply isValidTikTokUrl_spec in H.
  destruct H as (r & Hin & before & m & after & -> & H).
  destruct (match_facts r m Hin H) as (_ & _ & (a & b & ->)).
  exists (before ++ a), (b ++ after). repeat rewrite <- app_assoc. reflexivity.
Qed.

Lemma accepted_text_names_the_host_witness :
  isValidTikTokUrl (js "https://vm.tiktok.com/ZMabc") = true /\
  exists a b, js "https://vm.tiktok.com/ZMabc" = a ++ js "tiktok.com/" ++ b.
Proof.
  split; [vm_compute; reflexivity | ].
  apply (accepted_text_names_the_host (js "https://vm.tiktok.com/ZMabc")).
  vm_compute. reflexivity.
Defined.

(* a match of the pattern with an @handle is a match of the one with .* *)
Lemma handle_path_is_any_path kind m :
  Matches (Cat (lit "tiktok.com/@") (Cat (plus (Sym handle_class))
             (Cat (lit kind) (plus (Sym digit))))) m ->
  Matches (Cat (lit "tiktok.com/") (Cat (Star (Sym dot))
             (Cat (lit kind) (plus (Sym digit))))) m.
Proof.
  intros H. apply lit_cat_inv in H. destruct H as (w & -> & H).
  apply matches_cat_inv in H. destruct H as (h & tail & -> & Hh & Htail).
  apply plus_sym_inv in Hh. destruct Hh as (c & rest & -> & Hc & Hrest).
  change (js "tiktok.com/@" ++ (c :: rest) ++ tail)
    with (js "tiktok.com/" ++ (64 :: c :: rest) ++ tail).
  apply MCat; [apply lit_matches | ].
  apply MCat; [ | assumption].
  apply forall_star_sym. constructor; [reflexivity | ].
  constructor; [apply handle_is_dot; assumption | ].
  eapply Forall_impl; [ | exact Hrest]. intros x Hx. apply handle_is_dot. assumption.
Qed.

(** X3.  The two patterns that spell out an @handle accept nothing the two
    patterns with .* do not accept already: the validator gives the same
    answer with five patterns as with seven. *)
Theorem handle_patterns_are_subsumed (s : jsstring) :
  isValidTikTokUrl s =
  existsb (fun pattern => test pattern s)
          [pattern_video_any; pattern_photo_any; pattern_vm; pattern_vt; pattern_t].
Proof.
  assert (Hsub : forall kind, test (Cat (lit "tiktok.com/@") (Cat (plus (Sym handle_class))
                                 (Cat (lit kind) (plus (Sym digit))))) s = true ->
                              test (Cat (lit "tiktok.com/") (Cat (Star (Sym dot))
                                 (Cat (lit kind) (plus (Sym digit))))) s = true).
  { intros kind H. apply test_spec in H. apply test_spec.
    destruct H as (before & m & after & -> & H).
    exists before, m, after. split; [reflexivity | ].
    apply handle_path_is_any_path. assumption. }
  unfold isValidTikTokUrl, patterns. simpl.
  pose proof (Hsub "/video/"%string) as Hv. pose proof (Hsub "/photo/"%string) as Hp.
  fold pattern_video_handle pattern_video_any in Hv.
  fold pattern_photo_handle pattern_photo_any in Hp.
  destruct (test pattern_video_handle s); [rewrite (Hv eq_refl); reflexivity | ].
  destruct (test pattern_video_any s); [reflexivity | ].
  destruct (test pattern_photo_handle s); [rewrite (Hp eq_refl); reflexivity | ].
  reflexivity.
Qed.

End ValidatorFacts.

(** ** Submitting and settling a lookup *)

Module ControllerFacts.

Import TrimFacts ValidatorFacts.


(** X4.  A submission whose input holds nothing but white space (or nothing
    at all) is answered with "Please enter a TikTok URL": the input is
    marked, the toast is shown, and nothing else happens. *)
Theorem blank_submission_is_refused (st : Page) :
  blank (input_value st) ->
  handleDownload_start st = showError (js "Please enter a TikTok URL") st.
Proof.
  intros H. unfold handleDownload_start. rewrite (trim_blank _ H). reflexivity.
Qed.

Lemma blank_submission_is_refused_witness :
  blank (input_value (set_input_value (js "   ") initial_page)) /\
  handleDownload_start (set_input_value (js "   ") initial_page) =
    showError (js "Please enter a TikTok URL") (set_input_value (js "   ") initial_page).
Proof.
  assert (H : blank (input_value (set_input_value (js "   ") initial_page))).
  { repeat constructor. }
  split; [exact H | ].
  exact (blank_submission_is_refused (set_input_value (js "   ") initial_page) H).
Defined.

(** X5.  A submission the validator refuses never touches the lookups: the
    pending requests, the controller slot, the aborted controllers, the
    loading flag, the rendered result and the current result stay as they
    were (so a pending lookup is not cancelled by a bad submission); the
    input is marked as wrong and one of the two validation messages is shown
    as an error toast. *)
Theorem refused_submission_leaves_the_lookups_alone (st : Page) :
  isValidTikTokUrl (input_value st) = false ->
  let st' := handleDownload_start st in
  in_flight st' = in_flight st /\
  abortController st' = abortController st /\
  aborted st' = aborted st /\
  controllers st' = controllers st /\
  loading st' = loading st /\
  view st' = view st /\
  currentVideoData st' = currentVideoData st /\
  console st' = console st /\
  input_error st' = true /\
  toast_is_error (toast st') = true /\
  toast_active (toast st') = true /\
  (toastMessage (toast st') = js "Please enter a TikTok URL" \/
   toastMessage (toast st') = js "Please enter a valid TikTok URL").
Proof.
  intros H. rewrite <- trim_keeps_the_verdict in H.
  unfold handleDownload_start.
  destruct (trim (input_value st)) as [ | c s].
  - cbv zeta. simpl. repeat split. left. reflexivity.
  - rewrite H. cbv zeta. simpl. repeat split. right. reflexivity.
Qed.

Lemma refused_submission_leaves_the_lookups_alone_witness :
  isValidTikTokUrl (input_value (set_input_value (js "https://youtube.com/watch?v=1")
                                                 initial_page)) = false /\
  in_flight (handleDownload_start (set_input_value (js "https://youtube.com/watch?v=1")
                                                   initial_page)) = [] /\
  toastMessage (toast (handleDownload_start
                         (set_input_value (js "https://youtube.com/watch?v=1")
                                          initial_page)))
    = js "Please enter a valid TikTok URL".
Proof.
  split; [vm_compute; reflexivity | ].
  pose proof (refused_submission_leaves_the_lookups_alone
                (set_input_value (js "https://youtube.com/watch?v=1") initial_page)
                eq_refl) as H.
  cbv zeta in H. destruct H as (H1 & _).
  split; [exact H1 | vm_compute; reflexivity].
Defined.




(* the parts of the page that only handleDownload_start and forget write *)
Lemma settle_keeps_requests o st :
  in_flight (handleDownload_settle o st) = in_flight st /\
  aborted (handleDownload_settle o st) = aborted st /\
  controllers (handleDownload_settle o st) = controllers st /\
  input_value (handleDownload_settle o st) = input_value st /\
  content_loaded (handleDownload_settle o st) = content_loaded st.
Proof.
  unfold handleDownload_settle.
  destruct (fetchTikTokData o) as [entries [r | e]].
  - unfold displayResult.
    destruct (truthy_bool (isPhoto r)); [destruct (images r) | ];
      simpl; try (destruct (is_AbortError _)); repeat split.
  - unfold handleDownload_catch. destruct (is_AbortError e); repeat split.
Qed.

(* the finally block *)
Lemma settle_clears_the_slot o st :
  loading (handleDownload_settle o st) = false /\
  abortController (handleDownload_settle o st) = None.
Proof.
  unfold handleDownload_settle. destruct (fetchTikTokData o) as [entries c].
  split; reflexivity.
Qed.

(** X7.  Whatever the lookup settles with (a result, an API error, a
    network error, an abort), the finally block leaves the button enabled
    and the controller slot empty; settling changes neither the list of
    pending lookups, nor the aborted controllers, nor the input. *)
Theorem every_settlement_ends_loading (o : fetch_outcome) (st : Page) :
  loading (handleDownload_settle o st) = false /\
  abortController (handleDownload_settle o st) = None /\
  in_flight (handleDownload_settle o st) = in_flight st /\
  aborted (handleDownload_settle o st) = aborted st /\
  controllers (handleDownload_settle o st) = controllers st /\
  input_value (handleDownload_settle o st) = input_value st.
Proof.
  destruct (settle_keeps_requests o st) as (H1 & H2 & H3 & H4 & _).
  destruct (settle_clears_the_slot o st) as (H5 & H6).
  repeat split; assumption.
Qed.

(* displayResult has nothing to throw on a result that normalize built *)
Lemma displayResult_of_normalize d st :
  snd (displayResult (normalize d) st) = None.
Proof.
  unfold displayResult.
  destruct (truthy_bool (isPhoto (normalize d))) eqn:Hp; [ | reflexivity].
  apply isPhoto_true_iff in Hp. destruct Hp as (x & l & Himg).
  assert (Hi : images (normalize d) = Value (x :: l)).
  { unfold normalize. simpl. rewrite Himg. reflexivity. }
  rewrite Hi. reflexivity.
Qed.

Lemma settle_of_success d m st :
  handleDownload_settle (successful d m) st =
  handleDownload_finally (fst (displayResult (normalize d) (log [] st))).
Proof.
  unfold handleDownload_settle. rewrite lookup_success.
  pose proof (displayResult_of_normalize d (log [] st)) as H.
  destruct (displayResult (normalize d) (log [] st)) as [st2 [e | ]];
    [discriminate | reflexivity].
Qed.

(* what displayResult writes when it runs to its end *)
Lemma displayResult_renders r st :
  snd (displayResult r st) = None ->
  let st' := fst (displayResult r st) in
  currentVideoData st' = Some r /\
  result_active (view st') = true /\
  videoTitle (view st') = or_text (title r) (js "TikTok Content") /\
  videoAuthor (view st') = author_label (or_text (author r) (js "tiktok")) /\
  toast st' = toast st /\
  input_error st' = input_error st /\
  console st' = console st /\
  timers st' = timers st ++ [MarkContentLoaded].
Proof.
  unfold displayResult.
  destruct (truthy_bool (isPhoto r)); [destruct (images r) | ]; simpl;
    intros H; try discriminate; repeat split.
Qed.

(** X8.  A lookup that succeeds is always rendered: displayResult never
    throws on normalised data, so no error toast appears, the input is not
    marked and nothing is logged.  The result becomes the current result,
    the result panel is shown with the normalised title and the '@' author,
    and the content-loaded timer is set. *)
Theorem successful_lookup_is_rendered_without_error
    (d : Api.Data) (m : field jsstring) (st : Page) :
  let st' := handleDownload_settle (successful d m) st in
  currentVideoData st' = Some (normalize d) /\
  result_active (view st') = true /\
  videoTitle (view st') = title (normalize d) /\
  videoAuthor (view st') = author_label (author (normalize d)) /\
  toast st' = toast st /\
  input_error st' = input_error st /\
  console st' = console st /\
  timers st' = timers st ++ [MarkContentLoaded].
Proof.
  cbv zeta. rewrite settle_of_success.
  assert (Ht : or_text (title (normalize d)) (js "TikTok Content") = title (normalize d)).
  { unfold normalize; simpl. destruct (Api.title d) as [ | | [ | c s]]; reflexivity. }
  assert (Ha : or_text (author (normalize d)) (js "tiktok") = author (normalize d)).
  { pose proof (normalized_author_non_empty d) as Hne.
    unfold or_text. destruct (author (normalize d)); [contradiction | reflexivity]. }
  pose proof (displayResult_renders (normalize d) (log [] st)
                (displayResult_of_normalize d (log [] st))) as H.
  cbv zeta in H. rewrite Ht, Ha in H.
  destruct H as (H1 & H2 & H3 & H4 & H5 & H6 & H7 & H8).
  remember (fst (displayResult (normalize d) (log [] st))) as st2 eqn:E.
  clear E Ht Ha. unfold handleDownload_finally. simpl.
  rewrite H1, H2, H3, H4, H5, H6, H7, H8. simpl. rewrite app_nil_r.
  repeat split.
Qed.

Lemma first_non_empty_is_non_empty candidates url :
  first_non_empty candidates = Some url -> exists c s, url = c :: s.
Proof.
  induction candidates as [ | x rest IH]; simpl; [discriminate | ].
  destruct x as [ | | [ | c s]]; try exact IH.
  intros H. injection H as <-. eauto.
Qed.

Lemma settled_view d m st :
  view (handleDownload_settle (successful d m) st) =
    (if truthy_bool (isPhoto (normalize d))
     then match images (normalize d) with
          | Value imgs => render_photo imgs (render_head (normalize d) (view st))
          | _ => render_head (normalize d) (view st)
          end
     else render_video (videoUrl (normalize d)) (render_head (normalize d) (view st))) /\
  currentVideoData (handleDownload_settle (successful d m) st) = Some (normalize d).
Proof.
  rewrite settle_of_success. unfold displayResult.
  destruct (truthy_bool (isPhoto (normalize d)));
    [destruct (images (normalize d)) | ]; split; reflexivity.
Qed.



(** X10.  A response without images is rendered as a video.  When one of
    hdplay, play, wmplay is non-empty, the first such link becomes the href
    of the download link, the video options are shown and the handlers act
    on that link.  When none is, the options are hidden, the download link
    keeps its previous href and the handlers have nothing to act on.  The
    photo grid is hidden but keeps its previous items. *)
Theorem video_response_is_rendered_with_its_first_link
    (d : Api.Data) (m : field jsstring) (st : Page) :
  truthy_bool (isPhoto (normalize d)) = false ->
  let st' := handleDownload_settle (successful d m) st in
  contentType (view st') = js "VIDEO" /\
  photoGallery_active (view st') = false /\
  photoGrid (view st') = photoGrid (view st) /\
  match first_non_empty [Api.hdplay d; Api.play d; Api.wmplay d] with
  | Some url =>
      videoOptions_active (view st') = true /\
      downloadVideo_href (view st') = url /\
      current_videoUrl st' = Some url
  | None =>
      videoOptions_active (view st') = false /\
      downloadVideo_href (view st') = downloadVideo_href (view st) /\
      current_videoUrl st' = None
  end.
Proof.
  intros Hp. cbv zeta.
  destruct (settled_view d m st) as [Hv Hc]. rewrite Hp in Hv.
  assert (Hu : videoUrl (normalize d) =
               or_else (or_else (Api.hdplay d) (Api.play d)) (Api.wmplay d)).
  { unfold normalize in *. simpl in *. rewrite Hp. reflexivity. }
  unfold current_videoUrl. rewrite Hv, Hc, Hu.
  pose proof (first_non_empty_or_else (Api.hdplay d) (Api.play d) (Api.wmplay d)) as Hf.
  destruct (first_non_empty [Api.hdplay d; Api.play d; Api.wmplay d])
    as [url | ] eqn:Ef.
  - rewrite Hf.
    destruct (first_non_empty_is_non_empty _ _ Ef) as (c & s & ->). repeat split.
  - destruct (or_else (or_else (Api.hdplay d) (Api.play d)) (Api.wmplay d))
      as [ | | [ | c s]]; simpl in Hf; try discriminate; repeat split.
Qed.

Lemma video_response_is_rendered_with_its_first_link_witness :
  truthy_bool (isPhoto (normalize video_data)) = false /\
  downloadVideo_href (view (handleDownload_settle (successful video_data Undefined)
                                                  initial_page)) = js "A" /\
  current_videoUrl (handleDownload_settle (successful video_data Undefined) initial_page)
    = Some (js "A").
Proof.
  split; [reflexivity | ].
  pose proof (video_response_is_rendered_with_its_first_link
                video_data Undefined initial_page eq_refl) as H.
  cbv zeta in H. destruct H as (_ & _ & _ & H).
  change (first_non_empty [Api.hdplay video_data; Api.play video_data;
                           Api.wmplay video_data]) with (Some (js "A")) in H.
  destruct H as (_ & H1 & H2). split; assumption.
Defined.



End ControllerFacts.

(** ** What every run of the page keeps *)

Module RunFacts.

Import TrimFacts ValidatorFacts ControllerFacts.

Lemma hide_after_show l :
  List.length (filter is_HideToast
                 (filter (fun t => negb (is_HideToast t)) l ++ [HideToast])) = 1%nat.
Proof.
  assert (H : filter is_HideToast (filter (fun t => negb (is_HideToast t)) l) = []).
  { induction l as [ | [ | ] l IH]; simpl; auto. }
  rewrite filter_app, H. reflexivity.
Qed.

Lemma hide_after_arm l :
  List.length (filter is_HideToast (l ++ [MarkContentLoaded])) =
  List.length (filter is_HideToast l).
Proof. rewrite filter_app, length_app. simpl. apply Nat.add_0_r. Qed.

Lemma hide_timer_pending l :
  In HideToast l <-> (0 < List.length (filter is_HideToast l))%nat.
Proof.
  induction l as [ | [ | ] l IH]; simpl.
  - split; [intros [] | lia].
  - split; [lia | auto].
  - rewrite <- IH. split; [intros [H | H]; [discriminate | assumption] | auto].
Qed.

Lemma hide_after_fire_hide l :
  In HideToast l ->
  List.length (filter is_HideToast (remove_first HideToast l)) =
  pred (List.length (filter is_HideToast l)).
Proof.
  induction l as [ | [ | ] l IH]; simpl.
  - intros [].
  - reflexivity.
  - intros [H | H]; [discriminate | apply IH; assumption].
Qed.

Lemma hide_after_fire_mark l :
  List.length (filter is_HideToast (remove_first MarkContentLoaded l)) =
  List.length (filter is_HideToast l).
Proof.
  induction l as [ | [ | ] l IH]; simpl; [reflexivity | | reflexivity].
  rewrite IH. reflexivity.
Qed.

Lemma toast_timer_ok_showToast m e st : toast_timer_ok (showToast m e st).
Proof. unfold toast_timer_ok, hide_timers. simpl. apply hide_after_show. Qed.

Lemma toast_timer_ok_start st :
  toast_timer_ok st -> toast_timer_ok (handleDownload_start st).
Proof.
  intros H. unfold handleDownload_start.
  destruct (trim (input_value st)) as [ | c s].
  - apply toast_timer_ok_showToast.
  - destruct (isValidTikTokUrl (c :: s)); simpl.
    + exact H.
    + apply toast_timer_ok_showToast.
Qed.

Lemma toast_timer_ok_settle o st :
  toast_timer_ok st -> toast_timer_ok (handleDownload_settle o st).
Proof.
  unfold toast_timer_ok, hide_timers, handleDownload_settle. intros H.
  destruct (fetchTikTokData o) as [entries [r | e]].
  - unfold displayResult.
    destruct (truthy_bool (isPhoto r)); [destruct (images r) | ]; simpl;
      try (destruct (is_AbortError _); simpl);
      try exact H; try apply hide_after_show;
      rewrite hide_after_arm; exact H.
  - unfold handleDownload_catch. destruct (is_AbortError e); simpl.
    + exact H.
    + apply hide_after_show.
Qed.

Lemma toast_timer_ok_fire t st :
  In t (timers st) -> toast_timer_ok st -> toast_timer_ok (fire t st).
Proof.
  unfold toast_timer_ok, hide_timers. intros Hin H. destruct t; simpl.
  - rewrite (hide_after_fire_hide _ Hin), H.
    destruct (toast_active (toast st)); reflexivity.
  - rewrite hide_after_fire_mark. exact H.
Qed.

Lemma toast_timer_ok_step st e st' :
  step st e st' -> toast_timer_ok st -> toast_timer_ok st'.
Proof.
  intros Hs H. destruct Hs as [st text | st | st c url o Hin Hab | st t Hin].
  - unfold handleInputChange. simpl. destruct (input_error st); exact H.
  - apply toast_timer_ok_start. exact H.
  - apply toast_timer_ok_settle. exact H.
  - apply toast_timer_ok_fire; assumption.
Qed.

(* controller_ok and requests_ok read only these parts of the page *)
Lemma controller_ok_ext st st' :
  in_flight st' = in_flight st -> aborted st' = aborted st ->
  controllers st' = controllers st -> abortController st' = abortController st ->
  loading st' = loading st ->
  controller_ok st -> controller_ok st'.
Proof.
  unfold controller_ok, pending_controllers.
  intros -> -> -> -> ->. exact (fun H => H).
Qed.

Lemma controller_ok_showError m st : controller_ok st -> controller_ok (showError m st).
Proof. apply controller_ok_ext; reflexivity. Qed.

Lemma map_fst_filter_in (c x : nat) (l : list (nat * jsstring)) :
  In x (map fst (filter (fun r => negb (Nat.eqb (fst r) c)) l)) -> In x (map fst l).
Proof.
  rewrite !in_map_iff. intros (r & Hr & Hin). apply filter_In in Hin.
  exists r. split; [assumption | apply Hin].
Qed.

Lemma NoDup_map_fst_filter (c : nat) (l : list (nat * jsstring)) :
  NoDup (map fst l) -> NoDup (map fst (filter (fun r => negb (Nat.eqb (fst r) c)) l)).
Proof.
  induction l as [ | r l IH]; simpl; intros H; [constructor | ].
  apply NoDup_cons_iff in H. destruct H as [Hnotin Hnd].
  destruct (negb (Nat.eqb (fst r) c)); simpl.
  - constructor; [ | apply IH; assumption].
    intros Hin. apply Hnotin. apply (map_fst_filter_in c). assumption.
  - apply IH. assumption.
Qed.

Lemma controller_ok_start st : controller_ok st -> controller_ok (handleDownload_start st).
Proof.
  intros H. unfold handleDownload_start.
  destruct (trim (input_value st)) as [ | u s]; [apply controller_ok_showError; exact H | ].
  destruct (isValidTikTokUrl (u :: s)); simpl;
    [ | apply controller_ok_showError; exact H].
  destruct H as (Hpend & Hnd & Hab & Hslot).
  assert (Hab' : forall c, In c (abort_current st) -> (c < controllers st)%nat).
  { intros c. unfold abort_current. destruct (abortController st) as [c0 | ].
    - intros [<- | Hin]; [apply Hpend; apply Hslot | apply Hab; assumption].
    - apply Hab. }
  unfold controller_ok, pending_controllers in *. simpl.
  rewrite map_app. simpl. repeat split.
  - intros c Hin. apply in_app_or in Hin. destruct Hin as [Hin | [<- | []]].
    + apply Hpend in Hin. lia.
    + lia.
  - apply NoDup_app; [assumption | repeat constructor; intros [] | ].
    intros a Hin [<- | []]. apply Hpend in Hin. lia.
  - intros c Hin. apply Hab' in Hin. lia.
  - apply in_or_app. right. left. reflexivity.
  - intros Hin. apply Hab' in Hin. lia.
Qed.

Lemma controller_ok_settle c o st :
  controller_ok st -> controller_ok (handleDownload_settle o (forget c st)).
Proof.
  intros (Hpend & Hnd & Hab & _).
  destruct (settle_clears_the_slot o (forget c st)) as (Hl & Hs).
  destruct (settle_keeps_requests o (forget c st)) as (Hf & Ha & Hc & _).
  unfold controller_ok, pending_controllers in *.
  rewrite Hl, Hs, Hf, Ha, Hc. simpl. repeat split.
  - intros x Hin. apply Hpend. apply (map_fst_filter_in c). assumption.
  - apply NoDup_map_fst_filter. assumption.
  - assumption.
Qed.

Lemma controller_ok_step st e st' :
  step st e st' -> controller_ok st -> controller_ok st'.
Proof.
  intros Hs H. destruct Hs as [st text | st | st c url o Hin Hab | st t Hin].
  - revert H. apply controller_ok_ext;
      unfold handleInputChange; simpl; destruct (input_error st); reflexivity.
  - apply controller_ok_start. exact H.
  - apply controller_ok_settle. exact H.
  - revert H. apply controller_ok_ext; destruct t; reflexivity.
Qed.

Lemma requests_ok_start st : requests_ok st -> requests_ok (handleDownload_start st).
Proof.
  intros H. unfold handleDownload_start.
  destruct (trim (input_value st)) as [ | u s] eqn:E; [exact H | ].
  destruct (isValidTikTokUrl (u :: s)) eqn:V; simpl; [ | exact H].
  unfold requests_ok. simpl. apply Forall_app. split; [exact H | ].
  constructor; [ | constructor]. simpl. split; [exact V | ].
  rewrite <- E. apply trim_idempotent.
Qed.

Lemma requests_ok_settle c o st :
  requests_ok st -> requests_ok (handleDownload_settle o (forget c st)).
Proof.
  unfold requests_ok. intros H.
  destruct (settle_keeps_requests o (forget c st)) as (-> & _).
  simpl. rewrite Forall_forall in *. intros r Hin.
  apply filter_In in Hin. apply H. apply Hin.
Qed.

Lemma requests_ok_step st e st' :
  step st e st' -> requests_ok st -> requests_ok st'.
Proof.
  intros Hs H. destruct Hs as [st text | st | st c url o Hin Hab | st t Hin].
  - unfold handleInputChange. simpl. destruct (input_error st); exact H.
  - apply requests_ok_start. exact H.
  - apply requests_ok_settle. exact H.
  - destruct t; exact H.
Qed.

Lemma toast_timer_ok_act st a st' :
  act st a st' -> toast_timer_ok st -> toast_timer_ok st'.
Proof.
  intros Ha H.
  destruct Ha as [st e st' Hs | st key | st text | st now | st ios url filename o
                  | st rejected button].
  - apply (toast_timer_ok_step _ _ _ Hs H).
  - unfold handleKeyPress. destruct (jsstring_eqb key (js "Enter"));
      [apply toast_timer_ok_start | ]; exact H.
  - unfold handlePaste_callback. destruct text as [ | c s]; [exact H | ].
    destruct (isValidTikTokUrl (trim (c :: s))); [apply toast_timer_ok_start | ]; exact H.
  - unfold handleVideoDownload. destruct (current_videoUrl st); simpl;
      [apply toast_timer_ok_showToast | exact H].
  - unfold downloadMedia_settle. destruct (downloadMedia_try o); simpl;
      [apply toast_timer_ok_showToast | ].
    destruct ios; simpl; [apply toast_timer_ok_showToast | exact H].
  - destruct rejected; simpl; apply toast_timer_ok_showToast.
Qed.

Lemma controller_ok_act st a st' :
  act st a st' -> controller_ok st -> controller_ok st'.
Proof.
  intros Ha H.
  destruct Ha as [st e st' Hs | st key | st text | st now | st ios url filename o
                  | st rejected button].
  - apply (controller_ok_step _ _ _ Hs H).
  - unfold handleKeyPress. destruct (jsstring_eqb key (js "Enter"));
      [apply controller_ok_start | ]; exact H.
  - unfold handlePaste_callback. destruct text as [ | c s]; [exact H | ].
    destruct (isValidTikTokUrl (trim (c :: s))); [apply controller_ok_start | ]; exact H.
  - revert H. apply controller_ok_ext;
      unfold handleVideoDownload; destruct (current_videoUrl st); reflexivity.
  - revert H. apply controller_ok_ext;
      unfold downloadMedia_settle; destruct (downloadMedia_try o); try reflexivity;
      destruct ios; reflexivity.
  - revert H. apply controller_ok_ext; destruct rejected; reflexivity.
Qed.

Lemma requests_ok_act st a st' :
  act st a st' -> requests_ok st -> requests_ok st'.
Proof.
  intros Ha H.
  destruct Ha as [st e st' Hs | st key | st text | st now | st ios url filename o
                  | st rejected button].
  - apply (requests_ok_step _ _ _ Hs H).
  - unfold handleKeyPress. destruct (jsstring_eqb key (js "Enter"));
      [apply requests_ok_start | ]; exact H.
  - unfold handlePaste_callback. destruct text as [ | c s]; [exact H | ].
    destruct (isValidTikTokUrl (trim (c :: s))); [apply requests_ok_start | ]; exact H.
  - unfold handleVideoDownload. destruct (current_videoUrl st); exact H.
  - unfold downloadMedia_settle. destruct (downloadMedia_try o); [exact H | ].
    destruct ios; exact H.
  - destruct rejected; exact H.
Qed.

Lemma session_keeps (P : Page -> Prop) :
  (forall st a st', act st a st' -> P st -> P st') ->
  forall st acts st', session st acts st' -> P st -> P st'.
Proof.
  intros Hact st acts st' Hs.
  induction Hs as [st | st a st1 rest st2 Ha _ IH]; intros H; [exact H | ].
  apply IH. apply (Hact _ _ _ Ha H).
Qed.

(** X12.  In every state a session can reach, the toast is showing exactly
    when a hide timer is pending for it, and there is never more than one
    such timer: every toast that is shown will be hidden, and showing a new
    toast (from a lookup, a download or a copy) replaces the timer of the
    old one. *)
Theorem toast_and_its_timer_go_together (acts : list action) (st : Page) :
  session initial_page acts st ->
  (toast_active (toast st) = true <-> In HideToast (timers st)) /\
  (hide_timers st <= 1)%nat.
Proof.
  intros Hs.
  assert (H : toast_timer_ok st).
  { apply (session_keeps toast_timer_ok toast_timer_ok_act _ _ _ Hs). reflexivity. }
  unfold toast_timer_ok in H. rewrite hide_timer_pending.
  fold (hide_timers st). rewrite H.
  destruct (toast_active (toast st)).
  - split; [split; [lia | reflexivity] | lia].
  - split; [split; [discriminate | lia] | lia].
Qed.

(** X13.  In every state a session can reach, the button is disabled
    exactly while the controller slot holds a controller, and that
    controller belongs to a lookup that is still pending and has not been
    aborted. *)
Theorem loading_flag_follows_the_controller_slot (acts : list action) (st : Page) :
  session initial_page acts st ->
  (loading st = true <-> exists c, abortController st = Some c) /\
  (forall c, abortController st = Some c ->
             In c (pending_controllers st) /\ ~ In c (aborted st)).
Proof.
  intros Hs.
  assert (H : controller_ok st).
  { apply (session_keeps controller_ok controller_ok_act _ _ _ Hs).
    repeat split; simpl; try constructor; intros c []. }
  destruct H as (_ & _ & _ & Hslot).
  destruct (abortController st) as [c | ].
  - destruct Hslot as (Hl & Hin & Hna). split.
    + split; [eauto | intros _; exact Hl].
    + intros c' Heq. injection Heq as <-. split; assumption.
  - split.
    + split; [rewrite Hslot; discriminate | intros (c & Hc); discriminate].
    + intros c Hc. discriminate.
Qed.

(** X14.  In every state a session can reach, the pending lookups carry
    pairwise different controllers, all created before, and each was issued
    for a text without outer white space that the validator accepts: no
    request ever leaves the page for a text the validator refuses, whether
    the lookup was started by a click, by Enter or by a paste. *)
Theorem pending_lookups_are_distinct_and_validated (acts : list action) (st : Page) :
  session initial_page acts st ->
  NoDup (pending_controllers st) /\
  Forall (fun r => (fst r < controllers st)%nat /\
                   isValidTikTokUrl (snd r) = true /\
                   trim (snd r) = snd r) (in_flight st).
Proof.
  intros Hs.
  assert (Hc : controller_ok st).
  { apply (session_keeps controller_ok controller_ok_act _ _ _ Hs).
    repeat split; simpl; try constructor; intros c []. }
  assert (Hr : requests_ok st).
  { apply (session_keeps requests_ok requests_ok_act _ _ _ Hs). constructor. }
  destruct Hc as (Hpend & Hnd & _). split; [exact Hnd | ].
  unfold requests_ok in Hr. rewrite Forall_forall in *. intros r Hin.
  split; [ | apply Hr; assumption].
  apply Hpend. unfold pending_controllers. apply in_map. assumption.
Qed.

(* a session: a refused submission, the toast expiring, a lookup by Enter, a
   second lookup by paste, the first one settling with the abort, a copy *)
Lemma sample_session :
  exists st,
    session initial_page
      [PageEvent (Typed (js "not a url")); PageEvent Submit;
       PageEvent (Fires HideToast);
       PageEvent (Typed url_A); KeyPressed (js "Enter");
       PageEvent (Typed url_B); PasteTimerFires url_B;
       PageEvent (Settles 0 (FetchRejected abort_error));
       CopySettles None {| action_label := js "Copy link"; copied := false;
                           restores := [] |}]
      st.
Proof.
  eexists.
  eapply session_cons; [apply act_event; apply step_typed | ].
  eapply session_cons; [apply act_event; apply step_submit | ].
  eapply session_cons;
    [apply act_event; apply step_fires; vm_compute; left; reflexivity | ].
  eapply session_cons; [apply act_event; apply step_typed | ].
  eapply session_cons; [apply act_key | ].
  eapply session_cons; [apply act_event; apply step_typed | ].
  eapply session_cons; [apply act_paste | ].
  eapply session_cons.
  { apply act_event. apply step_settles with (url := url_A).
    - vm_compute. left. reflexivity.
    - intros _. vm_compute. reflexivity. }
  eapply session_cons; [apply act_copy | ].
  apply session_nil.
Defined.

Lemma toast_and_its_timer_go_together_witness :
  exists acts st,
    session initial_page acts st /\
    (toast_active (toast st) = true <-> In HideToast (timers st)) /\
    (hide_timers st <= 1)%nat.
Proof.
  destruct sample_session as (st & Hs).
  eexists _, st. split; [exact Hs | ].
  exact (toast_and_its_timer_go_together _ _ Hs).
Defined.

Lemma loading_flag_follows_the_controller_slot_witness :
  exists acts st,
    session initial_page acts st /\
    (loading st = true <-> exists c, abortController st = Some c) /\
    (forall c, abortController st = Some c ->
               In c (pending_controllers st) /\ ~ In c (aborted st)).
Proof.
  destruct sample_session as (st & Hs).
  eexists _, st. split; [exact Hs | ].
  exact (loading_flag_follows_the_controller_slot _ _ Hs).
Defined.

Lemma pending_lookups_are_distinct_and_validated_witness :
  exists acts st,
    session initial_page acts st /\
    NoDup (pending_controllers st) /\
    Forall (fun r => (fst r < controllers st)%nat /\
                     isValidTikTokUrl (snd r) = true /\
                     trim (snd r) = snd r) (in_flight st).
Proof.
  destruct sample_session as (st & Hs).
  eexists _, st. split; [exact Hs | ].
  exact (pending_lookups_are_distinct_and_validated _ _ Hs).
Defined.

End RunFacts.

(** ** The download dispatcher, further *)

Module DownloadFacts.

Import RegexFacts PatternFacts.

Lemma jsstring_eqb_eq a b : jsstring_eqb a b = true <-> a = b.
Proof.
  unfold jsstring_eqb. destruct (list_eq_dec N.eq_dec a b); split;
    try discriminate; auto.
Qed.

(** X15.  isIOS answers true exactly when the user agent contains "iPad",
    "iPhone" or "iPod" somewhere, or the platform is "MacIntel" with more
    than one touch point (an iPad that presents itself as a Mac). *)
Theorem isIOS_characterisation (navigator : Navigator) :
  isIOS navigator = true <->
  (occurs_in (js "iPad") (userAgent navigator) \/
   occurs_in (js "iPhone") (userAgent navigator) \/
   occurs_in (js "iPod") (userAgent navigator)) \/
  (platform navigator = js "MacIntel" /\ 1 < maxTouchPoints navigator).
Proof.
  unfold isIOS. rewrite orb_true_iff, andb_true_iff, jsstring_eqb_eq, N.ltb_lt.
  assert (Hua : test pattern_ios (userAgent navigator) = true <->
                (occurs_in (js "iPad") (userAgent navigator) \/
                 occurs_in (js "iPhone") (userAgent navigator) \/
                 occurs_in (js "iPod") (userAgent navigator))).
  { rewrite test_spec. unfold contains_shape, occurs_in, pattern_ios. split.
    - intros (before & m & after & Hs & H).
      apply matches_alt_inv in H. destruct H as [H | H];
        [ | apply matches_alt_inv in H; destruct H as [H | H]];
        apply lit_inv in H; subst m; eauto.
    - intros [(before & after & Hs) | [(before & after & Hs) | (before & after & Hs)]];
        eexists before, _, after; (split; [exact Hs | ]).
      + apply MAltL. apply lit_matches.
      + apply MAltR. apply MAltL. apply lit_matches.
      + apply MAltR. apply MAltR. apply lit_matches. }
  rewrite Hua. reflexivity.
Qed.

(** X16.  Whatever the platform and whatever the media fetch gives, one
    download makes exactly one request, the first thing it does outside the
    page, for the URL it was given, and hands the media over exactly once:
    by a click on a synthetic anchor or by opening a new browsing context.  The new browsing context
    is used exactly when the platform is iOS and the blob path failed. *)
Theorem one_fetch_and_one_delivery_per_download
    (navigator : Navigator) (url filename : jsstring) (o : media_outcome) (st : Page) :
  let effects := snd (downloadMedia navigator url filename o st) in
  hd_error effects = Some (Fetch url) /\
  List.length (filter is_Fetch effects) = 1%nat /\
  List.length (filter is_delivery effects) = 1%nat /\
  (existsb is_WindowOpen effects = true <->
   isIOS navigator = true /\ exists error, downloadMedia_try o = Throw error).
Proof.
  cbv zeta. unfold downloadMedia, downloadMedia_start, downloadMedia_settle.
  destruct (downloadMedia_try o) as [blobUrl | error]; simpl.
  - repeat split; try discriminate. intros (_ & e & He). discriminate.
  - destruct (isIOS navigator); simpl; repeat split; try discriminate; eauto.
    intros (H & _). discriminate.
Qed.

(** X17.  A download never disturbs the lookup side of the page: the input
    and its error mark, the loading flag, the rendered result, the current
    result, the controllers and the pending lookups are the same after it,
    whatever its outcome.  It writes at most one console entry, and the only
    error toast it can show is the iOS instruction; on other platforms a
    failed blob download leaves the toast at "Starting download...". *)
Theorem download_leaves_the_lookup_state_alone
    (navigator : Navigator) (url filename : jsstring) (o : media_outcome) (st : Page) :
  let st' := fst (downloadMedia navigator url filename o st) in
  input_value st' = input_value st /\
  input_error st' = input_error st /\
  loading st' = loading st /\
  view st' = view st /\
  currentVideoData st' = currentVideoData st /\
  abortController st' = abortController st /\
  aborted st' = aborted st /\
  in_flight st' = in_flight st /\
  toast_active (toast st') = true /\
  match downloadMedia_try o with
  | Return _ =>
      console st' = console st /\
      toast st' = {| toastMessage := js "Download started!";
                     toast_is_error := false; toast_active := true |}
  | Throw error =>
      console st' = console st ++ [ConsoleError (js "Download error:") error] /\
      toast st' =
        (if isIOS navigator
         then {| toastMessage := js "iOS: Please long press to save";
                 toast_is_error := true; toast_active := true |}
         else {| toastMessage := js "Starting download...";
                 toast_is_error := false; toast_active := true |})
  end.
Proof.
  cbv zeta. unfold downloadMedia, downloadMedia_start, downloadMedia_settle.
  destruct (downloadMedia_try o) as [blobUrl | error]; simpl.
  - repeat split.
  - destruct (isIOS navigator); simpl; repeat split.
Qed.

End DownloadFacts.

(** ** The download button, paste, preview, gallery, copy, favicon *)

Module HandlerFacts.

Import RegexFacts TrimFacts ValidatorFacts ControllerFacts.

(** X18.  After a lookup has succeeded, a click on the download link acts
    on the videoUrl of that result: when it is non-empty the handler
    prevents the default action, shows "Starting download..." and fetches
    exactly that link under the name tiktok_<now>.mp4; when the result is a
    gallery or has no playable link the handler does nothing and leaves the
    click to the browser. *)
Theorem download_button_acts_on_the_rendered_result
    (d : Api.Data) (m : field jsstring) (st : Page) (now : N) :
  let st' := handleDownload_settle (successful d m) st in
  handleVideoDownload now st' =
    match videoUrl (normalize d) with
    | Value (c :: s) =>
        (showToast (js "Starting download...") false st',
         [Fetch (c :: s)],
         Some (c :: s, js "tiktok_" ++ decimal_N now ++ js ".mp4"))
    | _ => (st', [], None)
    end.
Proof.
  cbv zeta. unfold handleVideoDownload, current_videoUrl.
  destruct (settled_view d m st) as [_ ->].
  destruct (videoUrl (normalize d)) as [ | | [ | c s]]; reflexivity.
Qed.

Lemma start_keeps_current_result st :
  currentVideoData (handleDownload_start st) = currentVideoData st.
Proof.
  unfold handleDownload_start.
  destruct (trim (input_value st)) as [ | c s]; [reflexivity | ].
  destruct (isValidTikTokUrl (c :: s)); reflexivity.
Qed.

(** X19.  What the download, preview and copy handlers act on changes only
    when a lookup succeeds.  Starting a lookup by click or by Enter, a
    refused submission, any other key, and a lookup that fails all leave the
    current videoUrl as it was: while the next lookup is loading, and after
    it failed, the three handlers still serve the previous video. *)
Theorem handlers_keep_serving_the_previous_result (st : Page) :
  current_videoUrl (handleDownload_start st) = current_videoUrl st /\
  (forall key, current_videoUrl (handleKeyPress key st) = current_videoUrl st) /\
  (forall o, (forall d m, o <> successful d m) ->
             current_videoUrl (handleDownload_settle o st) = current_videoUrl st /\
             handleCopyClick (handleDownload_settle o st) = handleCopyClick st /\
             (forall pv, handlePreviewClick (handleDownload_settle o st) pv =
                         handlePreviewClick st pv)).
Proof.
  assert (Hs : current_videoUrl (handleDownload_start st) = current_videoUrl st).
  { unfold current_videoUrl. rewrite start_keeps_current_result. reflexivity. }
  split; [exact Hs | ]. split.
  - intros key. unfold handleKeyPress.
    destruct (jsstring_eqb key (js "Enter")); [exact Hs | reflexivity].
  - intros o Hno.
    assert (Hc : current_videoUrl (handleDownload_settle o st) = current_videoUrl st).
    { destruct (fetchTikTokData_try o) as [r | e] eqn:E.
      - exfalso.
        assert (Hr : fetchTikTokData o = ([], Return r))
          by (unfold fetchTikTokData; rewrite E; reflexivity).
        apply lookup_returns_inv in Hr. destruct Hr as (d & m & -> & _).
        apply (Hno d m). reflexivity.
      - destruct (settle_of_failure o e st E) as [_ ->]. reflexivity. }
    split; [exact Hc | ]. split.
    + exact Hc.
    + intros pv. unfold handlePreviewClick. rewrite Hc. reflexivity.
Qed.

(* the invariant of the debounce: the variable names the newest timer, and
   no other timer is pending *)
Lemma debounce_keeps e db :
  (forall id, In id (paste_timers db) -> debounceTimer db = Some id) ->
  (List.length (paste_timers db) <= 1)%nat ->
  (forall id, In id (paste_timers (paste_step e db)) ->
              debounceTimer (paste_step e db) = Some id) /\
  (List.length (paste_timers (paste_step e db)) <= 1)%nat.
Proof.
  intros Hname Hlen. destruct e as [ | id']; simpl.
  - assert (Hnone : match debounceTimer db with
                    | Some id => clearTimeout id (paste_timers db)
                    | None => paste_timers db
                    end = []).
    { destruct (paste_timers db) as [ | x [ | y l]] eqn:E; simpl in Hlen; try lia.
      - destruct (debounceTimer db); reflexivity.
      - rewrite (Hname x (or_introl eq_refl)). simpl.
        rewrite Nat.eqb_refl. reflexivity. }
    rewrite Hnone. simpl. split; [ | lia].
    intros id [<- | []]. reflexivity.
  - unfold clearTimeout. split.
    + intros id Hin. apply filter_In in Hin. apply Hname. apply Hin.
    + destruct (paste_timers db) as [ | x [ | y l]]; simpl in *; try lia.
      destruct (negb (Nat.eqb x id')); simpl; lia.
Qed.

(** X20.  However pastes and expiring timers interleave, at most one paste
    callback is pending, and it is the one of the latest paste: every paste
    cancels the callback of the paste before it. *)
Theorem paste_is_debounced (es : list paste_event) :
  let db := paste_run es no_paste in
  (List.length (paste_timers db) <= 1)%nat /\
  (forall id, In id (paste_timers db) -> debounceTimer db = Some id).
Proof.
  cbv zeta. unfold paste_run.
  assert (H : forall db,
            (forall id, In id (paste_timers db) -> debounceTimer db = Some id) ->
            (List.length (paste_timers db) <= 1)%nat ->
            (List.length (paste_timers
               (fold_left (fun acc e => paste_step e acc) es db)) <= 1)%nat /\
            (forall id, In id (paste_timers
               (fold_left (fun acc e => paste_step e acc) es db)) ->
               debounceTimer (fold_left (fun acc e => paste_step e acc) es db) = Some id)).
  { induction es as [ | e es IH]; intros db Hname Hlen; simpl.
    - split; assumption.
    - destruct (debounce_keeps e db Hname Hlen) as [Hname' Hlen'].
      apply IH; assumption. }
  apply H; simpl; [intros id [] | lia].
Qed.


Lemma preview_ok_open_video url pv : preview_ok pv -> preview_ok (openPreview url pv).
Proof.
  intros (_ & Himg). unfold preview_ok. simpl. split; [tauto | ].
  destruct (image_preview pv) as [img | ]; simpl; auto.
Qed.

Lemma preview_ok_open_photo imageUrl pv : preview_ok (openPhotoPreview imageUrl pv).
Proof. unfold preview_ok. simpl. split; [tauto | left; split; reflexivity]. Qed.

Lemma preview_ok_close pv : preview_ok pv -> preview_ok (closePreview pv).
Proof.
  intros (_ & Himg). unfold preview_ok. simpl. split.
  - split; discriminate.
  - destruct (image_preview pv) as [img | ]; [exact Himg | discriminate].
Qed.

Lemma preview_ok_step e pv : preview_ok pv -> preview_ok (preview_step e pv).
Proof.
  intros H. destruct e as [st | imageUrl | | target | key]; simpl.
  - unfold handlePreviewClick. destruct (current_videoUrl st);
      [apply preview_ok_open_video | ]; exact H.
  - apply preview_ok_open_photo.
  - apply preview_ok_close. exact H.
  - unfold handleModalClick.
    destruct (is_previewModal target || has_modal_backdrop target);
      [apply preview_ok_close | ]; exact H.
  - unfold handleEscapeKey.
    destruct (jsstring_eqb key (js "Escape") && modal_active pv);
      [apply preview_ok_close | ]; exact H.
Qed.

(** X22.  Whatever sequence of preview clicks, photo clicks, close clicks,
    clicks inside the modal and key presses happens, the page scroll is
    locked (body overflow "hidden") exactly while the modal is open, and
    the modal never displays the video and the picture together: once the
    picture element exists, exactly one of the two is displayed. *)
Theorem preview_shows_one_medium_and_locks_scroll
    (es : list preview_event) (pv : Preview) :
  preview_ok pv ->
  let pv' := preview_run es pv in
  (modal_active pv' = true <-> body_overflow pv' = js "hidden") /\
  match image_preview pv' with
  | Some img =>
      (image_display img = js "block" /\ video_display pv' = js "none") \/
      (image_display img = js "none" /\ video_display pv' = js "block")
  | None => modal_active pv' = true -> video_display pv' = js "block"
  end.
Proof.
  intros H. cbv zeta. change (preview_ok (preview_run es pv)).
  unfold preview_run. revert pv H.
  induction es as [ | e es IH]; intros pv H; simpl; [exact H | ].
  apply IH. apply preview_ok_step. exact H.
Qed.

Lemma preview_shows_one_medium_and_locks_scroll_witness :
  preview_ok closed_preview /\
  preview_ok
    (preview_run [PhotoClick (js "https://p.example/1.jpg"); CloseClick;
                  PreviewClick (handleDownload_settle (successful video_data Undefined)
                                                      initial_page)]
                 closed_preview).
Proof.
  assert (H0 : preview_ok closed_preview).
  { unfold preview_ok. simpl. split; [split; discriminate | discriminate]. }
  split; [exact H0 | ].
  exact (preview_shows_one_medium_and_locks_scroll
           [PhotoClick (js "https://p.example/1.jpg"); CloseClick;
            PreviewClick (handleDownload_settle (successful video_data Undefined)
                                                initial_page)]
           closed_preview H0).
Defined.

Lemma gallery_from_nth imgs : forall index i,
  nth_error (gallery_from index imgs) i =
  option_map (fun imageUrl =>
                {| item_src := imageUrl;
                   item_alt := js "Photo " ++ decimal (index + i + 1);
                   item_loaded := false; item_error := false |})
             (nth_error imgs i).
Proof.
  induction imgs as [ | x imgs IH]; intros index i; simpl.
  - destruct i; reflexivity.
  - destruct i as [ | i]; simpl.
    + rewrite Nat.add_0_r. reflexivity.
    + rewrite IH. replace (S index + i)%nat with (index + S i)%nat by lia. reflexivity.
Qed.

Lemma gallery_from_src imgs : forall index, map item_src (gallery_from index imgs) = imgs.
Proof.
  induction imgs as [ | x imgs IH]; intros index; simpl; [reflexivity | ].
  rewrite IH. reflexivity.
Qed.

(** X23.  displayPhotoGallery builds one item per image, in the order of
    the response, whatever the grid held before: item i (counted from 0)
    shows image i, has the alternative text "Photo i+1", and starts neither
    loaded nor failed.  Its sources are what displayResult puts in the grid. *)
Theorem gallery_has_one_numbered_item_per_image
    (imgs : list jsstring) (old : list PhotoItem) :
  map item_src (displayPhotoGallery imgs old) = imgs /\
  List.length (displayPhotoGallery imgs old) = List.length imgs /\
  (forall i, nth_error (displayPhotoGallery imgs old) i =
             option_map (fun imageUrl =>
                           {| item_src := imageUrl;
                              item_alt := js "Photo " ++ decimal (i + 1);
                              item_loaded := false; item_error := false |})
                        (nth_error imgs i)) /\
  (forall v, photoGrid (render_photo imgs v) = map item_src (displayPhotoGallery imgs old)).
Proof.
  unfold displayPhotoGallery.
  pose proof (gallery_from_src imgs 0) as Hsrc.
  split; [exact Hsrc | ]. split; [ | split].
  - rewrite <- Hsrc at 2. rewrite length_map. reflexivity.
  - intros i. rewrite gallery_from_nth. reflexivity.
  - intros v. simpl. symmetry. exact Hsrc.
Qed.

Lemma update_item_nth f g : forall j i,
  nth_error (update_item j f g) i =
  if Nat.eqb i j then option_map f (nth_error g i) else nth_error g i.
Proof.
  induction g as [ | item g IH]; intros j i; simpl.
  - destruct j as [ | j], i as [ | i]; simpl; try reflexivity.
    destruct (Nat.eqb i j); reflexivity.
  - destruct j as [ | j], i as [ | i]; simpl; try reflexivity.
    apply IH.
Qed.

Lemma gallery_has_one_item_lemma imgs old i imageUrl :
  nth_error imgs i = Some imageUrl ->
  exists item, nth_error (displayPhotoGallery imgs old) i = Some item /\
               item_src item = imageUrl /\ item_error item = false.
Proof.
  intros H. unfold displayPhotoGallery. rewrite gallery_from_nth, H. simpl.
  eexists. repeat split.
Qed.

(** X24.  A click on photo i opens the photo preview with the URL of image
    i, also before the image has finished loading, unless that very image
    failed to load; the failure of another image j changes nothing for
    photo i. *)
Theorem photo_click_opens_its_image_unless_it_failed
    (imgs : list jsstring) (old : list PhotoItem) (i j : nat) (imageUrl : jsstring)
    (pv : Preview) :
  nth_error imgs i = Some imageUrl ->
  photo_item_click i (displayPhotoGallery imgs old) pv = openPhotoPreview imageUrl pv /\
  photo_item_click i (image_loads j (displayPhotoGallery imgs old)) pv
    = openPhotoPreview imageUrl pv /\
  photo_item_click i (fst (image_fails j (displayPhotoGallery imgs old))) pv
    = (if Nat.eqb i j then pv else openPhotoPreview imageUrl pv).
Proof.
  intros Hnth.
  destruct (gallery_has_one_item_lemma imgs old i imageUrl Hnth) as [item [Hitem [Hsrc Herr]]].
  unfold photo_item_click, image_loads, image_fails. simpl.
  rewrite !update_item_nth, Hitem.
  split; [rewrite Herr, Hsrc; reflexivity | ]. split.
  - destruct (Nat.eqb i j); simpl; rewrite ?Herr, ?Hsrc; reflexivity.
  - destruct (Nat.eqb i j); simpl; rewrite ?Herr, ?Hsrc; reflexivity.
Qed.

Lemma photo_click_opens_its_image_unless_it_failed_witness :
  nth_error [js "https://p.example/1.jpg"; js "https://p.example/2.jpg"] 1
    = Some (js "https://p.example/2.jpg") /\
  photo_item_click 1
    (displayPhotoGallery [js "https://p.example/1.jpg"; js "https://p.example/2.jpg"] [])
    closed_preview
    = openPhotoPreview (js "https://p.example/2.jpg") closed_preview /\
  photo_item_click 1
    (image_loads 1
       (displayPhotoGallery [js "https://p.example/1.jpg"; js "https://p.example/2.jpg"] []))
    closed_preview
    = openPhotoPreview (js "https://p.example/2.jpg") closed_preview /\
  photo_item_click 1
    (fst (image_fails 1
       (displayPhotoGallery [js "https://p.example/1.jpg"; js "https://p.example/2.jpg"] [])))
    closed_preview
    = closed_preview.
Proof.
  split; [reflexivity | ].
  exact (photo_click_opens_its_image_unless_it_failed
           [js "https://p.example/1.jpg"; js "https://p.example/2.jpg"] [] 1 1
           (js "https://p.example/2.jpg") closed_preview eq_refl).
Defined.

Lemma copy_times_shape n button st :
  restores button = [] ->
  copy_times (S n) button st =
    {| action_label := js "Copied!"; copied := true;
       restores := action_label button :: repeat (js "Copied!") n |}.
Proof.
  intros Hr. unfold copy_times. induction n as [ | n IH].
  - simpl. rewrite Hr. reflexivity.
  - rewrite Nat.iter_succ, IH. simpl. f_equal. f_equal.
    rewrite <- repeat_cons. reflexivity.
Qed.

Lemma last_cons_default (l : list jsstring) : forall y x, last (y :: l) x = last l y.
Proof.
  induction l as [ | j l IH]; intros y x; [reflexivity | ].
  change (last (y :: j :: l) x) with (last (j :: l) x).
  rewrite (IH j x), (IH j y). reflexivity.
Qed.

Lemma restore_times_shape l : forall button x,
  restores button = x :: l ->
  restore_times (S (List.length l)) button =
    {| action_label := last l x; copied := false; restores := [] |}.
Proof.
  unfold restore_times.
  induction l as [ | y l IH]; intros button x Hr.
  - simpl. unfold copy_restore. rewrite Hr. reflexivity.
  - change (List.length (y :: l)) with (S (List.length l)).
    rewrite Nat.iter_succ_r.
    rewrite (IH (copy_restore button) y).
    + rewrite last_cons_default. reflexivity.
    + unfold copy_restore. rewrite Hr. reflexivity.
Qed.

(** X25.  Copying once and letting the 2000 ms timer run gives the button
    its label back.  Copying n >= 2 times before the first timer runs does
    not: every later copy captures "Copied!" as the text to restore, so
    once all n timers have run the class 'copied' is gone but the label
    reads "Copied!" for good. *)
Theorem copy_label_is_restored_only_after_a_single_copy
    (n : nat) (button : CopyButton) (st : Page) :
  restores button = [] ->
  let after := restore_times (S n) (copy_times (S n) button st) in
  restores after = [] /\
  copied after = false /\
  action_label after = (if Nat.eqb n 0 then action_label button else js "Copied!").
Proof.
  intros Hr. cbv zeta. rewrite (copy_times_shape n button st Hr).
  pose proof (restore_times_shape (repeat (js "Copied!") n)
                {| action_label := js "Copied!"; copied := true;
                   restores := action_label button :: repeat (js "Copied!") n |}
                (action_label button) eq_refl) as H.
  rewrite repeat_length in H. rewrite H. simpl.
  repeat split. destruct n as [ | n]; [reflexivity | ].
  simpl Nat.eqb. cbv iota.
  assert (Hl : forall k d, last (repeat (js "Copied!") (S k)) d = js "Copied!").
  { induction k as [ | k IHk]; intros d; [reflexivity | ].
    change (repeat (js "Copied!") (S (S k)))
      with (js "Copied!" :: repeat (js "Copied!") (S k)).
    simpl last. simpl in IHk. apply IHk. }
  apply Hl.
Qed.

Lemma copy_label_is_restored_only_after_a_single_copy_witness :
  restores {| action_label := js "Copy link"; copied := false; restores := [] |} = [] /\
  action_label (restore_times 1 (copy_times 1
     {| action_label := js "Copy link"; copied := false; restores := [] |} initial_page))
    = js "Copy link" /\
  action_label (restore_times 2 (copy_times 2
     {| action_label := js "Copy link"; copied := false; restores := [] |} initial_page))
    = js "Copied!".
Proof.
  split; [reflexivity | ]. split.
  - exact (proj2 (proj2 (copy_label_is_restored_only_after_a_single_copy 0
       {| action_label := js "Copy link"; copied := false; restores := [] |}
       initial_page eq_refl))).
  - exact (proj2 (proj2 (copy_label_is_restored_only_after_a_single_copy 1
       {| action_label := js "Copy link"; copied := false; restores := [] |}
       initial_page eq_refl))).
Defined.

Lemma before_question_mark_stops base : forall rest,
  before_question_mark (before_question_mark base ++ 63 :: rest) =
  before_question_mark base.
Proof.
  induction base as [ | c base IH]; intros rest; simpl; [reflexivity | ].
  destruct (N.eqb c 63) eqn:E; simpl.
  - reflexivity.
  - rewrite E, IH. reflexivity.
Qed.

(** X26.  The favicon refresh replaces the cache-busting query instead of
    piling queries up: refreshing an href that was already refreshed gives
    the same href as refreshing the original one at the later time, and the
    part before the first "?" never changes. *)
Theorem favicon_refresh_replaces_the_query (href : jsstring) (earlier later : N) :
  refresh_favicon (refresh_favicon href earlier) later = refresh_favicon href later /\
  before_question_mark (refresh_favicon href later) = before_question_mark href.
Proof.
  assert (H : forall t, before_question_mark (refresh_favicon href t)
                        = before_question_mark href).
  { intros t. unfold refresh_favicon.
    change (js "?t=" ++ decimal_N t) with (63 :: js "t=" ++ decimal_N t).
    apply before_question_mark_stops. }
  split; [ | apply H].
  unfold refresh_favicon at 1. rewrite H. reflexivity.
Qed.

End HandlerFacts.
